(** * framegen: the frame packer of src/build/framegen/main.c

    The program lists the [.txt] files of a directory, sorts their names,
    reads every file, joins the contents with the separator byte [0x01],
    compresses the joined buffer with raw DEFLATE and writes the result.

    The development follows the C file top to bottom: C strings and
    [strcmp], the two directory scanners (POSIX [scandir] with
    [filter_frames]/[compare_frames], and the Win32 [scandir_txt]),
    [read_file], and [main].  The operating system, the allocator and zlib
    are not part of the program; they appear as an environment record and
    as section variables with the part of their contract that is used. *)

From Stdlib Require Import ZArith Ascii String Lia.
From Stdlib.Strings Require Import Byte.
From stdpp Require Import base tactics option list sorting strings pretty gmap.

Local Open Scope Z_scope.

(** ** C integer types (LP64 and LLP64 agree on the ones used unsigned) *)

(** [size_t] on a 64-bit build; zlib's [uInt] is [unsigned int]. *)
Definition size_t_bits : Z := 64.
Definition uInt_bits : Z := 32.

Definition to_size_t (z : Z) : Z := z mod 2 ^ size_t_bits.
Definition to_uInt (z : Z) : Z := z mod 2 ^ uInt_bits.

(** ** C strings

    A [string] stands for the bytes of a C string before its terminator;
    directory entry names and command line arguments never contain NUL. *)

Definition uchar (c : ascii) : Z := Z.of_N (N_of_ascii c).

Fixpoint cstring (s : string) : Prop :=
  match s with
  | EmptyString => True
  | String c r => uchar c ≠ 0 ∧ cstring r
  end.

Definition strlen (s : string) : Z := Z.of_nat (String.length s).

(** [s + k]: the string that starts [k] bytes into [s]. *)
Fixpoint str_advance (k : nat) (s : string) : string :=
  match k, s with
  | O, _ => s
  | S k', String _ r => str_advance k' r
  | S _, EmptyString => EmptyString
  end.

(** [strcmp]: the difference of the first pair of bytes that differ, read
    as [unsigned char]; the end of a string reads as the terminator 0. *)
Fixpoint strcmp (s1 s2 : string) : Z :=
  match s1, s2 with
  | EmptyString, EmptyString => 0
  | EmptyString, String c2 _ => 0 - uchar c2
  | String c1 _, EmptyString => uchar c1 - 0
  | String c1 r1, String c2 r2 =>
      if uchar c1 =? uchar c2 then strcmp r1 r2 else uchar c1 - uchar c2
  end.

(** [snprintf(buf, size, ...)] keeps at most [size - 1] bytes. *)
Fixpoint str_take (k : nat) (s : string) : string :=
  match k, s with
  | O, _ => EmptyString
  | S k', String c r => String c (str_take k' r)
  | S _, EmptyString => EmptyString
  end.

Definition PATH_BUF : nat := 4096.

Definition snprintf_path (dir name : string) : string :=
  str_take (PATH_BUF - 1) (dir +:+ "/" +:+ name).

(** ** Directory entries and the POSIX callbacks *)

Inductive d_type_t := DT_UNKNOWN | DT_DIR | DT_REG | DT_LNK.

Record dirent := { d_name : string; d_type : d_type_t }.

(** [filter_frames] returns a C truth value. *)
Definition filter_frames (entry : dirent) : Z :=
  let name := d_name entry in
  let len := strlen name in
  if (len >? 4) && (strcmp (str_advance (Z.to_nat (len - 4)) name) ".txt" =? 0)
  then 1 else 0.

Definition compare_frames (a b : dirent) : Z :=
  strcmp (d_name a) (d_name b).

(** ** The environment of a run

    Everything the program asks of the operating system, the allocator and
    zlib's initialisation.  A run is a function of its arguments and of
    this record. *)

(** An open input stream: what [ftell] reports after the seek to the end,
    and the bytes [fread] can deliver. *)
Record stream := { s_tell : Z; s_data : list byte }.

Record WIN32_FIND_DATAA := { dwFileAttributes : Z; cFileName : string }.

Definition FILE_ATTRIBUTE_DIRECTORY : Z := 16.

(** The arguments of [deflateInit2], in the order of the call. *)
Record deflate_params := {
  level : Z; method : Z; windowBits : Z; memLevel : Z; strategy : Z }.

Record env := {
  (** the [k]-th allocation request of the run, for [size] bytes, succeeds *)
  alloc_ok : nat → Z → bool;
  (** the byte found at an offset of freshly allocated memory *)
  junk : nat → byte;
  (** POSIX: the entries [scandir] enumerates, or the text of [errno] *)
  dir_entries : string → list dirent + string;
  (** Win32: [FindFirstFileA] on a pattern: no handle, or the first entry
      and the entries the following [FindNextFileA] calls deliver *)
  FindFirstFileA : string → option (WIN32_FIND_DATAA * list WIN32_FIND_DATAA);
  (** Win32: the text of [errno] when the scan has failed *)
  win_errno : string;
  (** [fopen(path, "rb")]: a stream, or the text of [errno] *)
  fopen_rb : string → stream + string;
  (** the status [deflateInit2] returns *)
  deflateInit2 : deflate_params → Z;
  (** [fopen(path, "wb")]: success, or the text of [errno] *)
  fopen_wb : string → unit + string;
  (** the number of bytes [fwrite] transfers when asked for [n] *)
  fwrite_count : nat → nat;
  (** the number of the [n] bytes that [fwrite] took that are in the file
      when [fclose] has flushed the stream and returned *)
  fclose_flush : nat → nat
}.

(** What a run changes: the allocation counter, the two output streams and
    the files it has written. *)
Record state := {
  st_allocs : nat;
  st_stderr : list string;
  st_stdout : list string;
  st_disk : gmap string (list byte)
}.

(** A step returns a value, leaves [main] with a status, or has undefined
    behaviour (a store or a read through a null or dangling pointer). *)
Inductive outcome (A : Type) :=
  | Ret (a : A)
  | Exit (status : Z)
  | Fault.
Arguments Ret {A} a.
Arguments Exit {A} status.
Arguments Fault {A}.

Definition M (A : Type) : Type := state → outcome A * state.

#[global] Instance M_ret : MRet M := λ A a s, (Ret a, s).

#[global] Instance M_bind : MBind M := λ A B k m s,
  match m s with
  | (Ret a, s') => k a s'
  | (Exit c, s') => (Exit c, s')
  | (Fault, s') => (Fault, s')
  end.

Definition exit_main {A} (status : Z) : M A := λ s, (Exit status, s).
Definition fault {A} : M A := λ s, (Fault, s).

Definition nl : string := String (ascii_of_nat 10) EmptyString.

(** [fprintf(stderr, ...)] with the formatted text. *)
Definition eprint (msg : string) : M unit :=
  λ s, (Ret tt,
        {| st_allocs := st_allocs s; st_stderr := st_stderr s ++ [msg];
           st_stdout := st_stdout s; st_disk := st_disk s |}).

Definition set_file (path : string) (content : list byte) : M unit :=
  λ s, (Ret tt,
        {| st_allocs := st_allocs s; st_stderr := st_stderr s;
           st_stdout := st_stdout s;
           st_disk := <[path := content]> (st_disk s) |}).

(** ** zlib constants (zlib.h) *)

Definition Z_OK : Z := 0.
Definition Z_STREAM_END : Z := 1.
Definition Z_FINISH : Z := 4.
Definition Z_DEFAULT_COMPRESSION : Z := -1.
Definition Z_DEFLATED : Z := 8.
Definition MAX_WBITS : Z := 15.
Definition Z_DEFAULT_STRATEGY : Z := 0.

Definition SEPARATOR : byte := x01.

(** The two builds of the file: [#ifdef _WIN32] or not. *)
Inductive platform := POSIX | WIN32.

(** [uLong] is [unsigned long]: 64 bits on LP64, 32 bits on Win32. *)
Definition uLong_bits (p : platform) : Z :=
  match p with POSIX => 64 | WIN32 => 32 end.

Definition to_uLong (p : platform) (z : Z) : Z := z mod 2 ^ uLong_bits p.

(** ** The Win32 sort of [scandir_txt] (lines 42-46), on the array *)

(** The body of the inner loop: compare slots [i] and [j], exchange them
    when they are out of order. *)
Definition sort_step (names : list string) (i j : nat) : list string :=
  match names !! i, names !! j with
  | Some a, Some b =>
      if strcmp a b >? 0 then <[j := a]> (<[i := b]> names) else names
  | _, _ => names
  end.

(** [for (j = ...; j < count; j++)], with [todo = count - j]. *)
Fixpoint sort_inner (todo : nat) (i j : nat) (names : list string) : list string :=
  match todo with
  | O => names
  | S todo' => sort_inner todo' i (S j) (sort_step names i j)
  end.

(** [for (i = ...; i < count - 1; i++)], with [todo = count - 1 - i]. *)
Fixpoint sort_outer (todo : nat) (i : nat) (names : list string) : list string :=
  match todo with
  | O => names
  | S todo' =>
      let count := length names in
      sort_outer todo' (S i) (sort_inner (count - (i + 1)) i (i + 1) names)
  end.

Definition sort_names (names : list string) : list string :=
  sort_outer (length names - 1) 0 names.

Section Program.

(** libc's [qsort], as [scandir] uses it on the selected entries. *)
Variable qsort : (dirent → dirent → Z) → list dirent → list dirent.

(** zlib: the bound on the compressed size, and [deflate] on a stream set
    up with the given parameters, the flush mode, the input bytes and the
    room for output; it returns its status and the bytes produced. *)
Variable compressBound : Z → Z.
Variable deflate : deflate_params → Z → list byte → Z → Z * list byte.

Variable E : env.

(** A request for [size] bytes ([malloc], [calloc], [realloc], [strdup]). *)
Definition alloc (size : Z) : M bool :=
  λ s, (Ret (alloc_ok E (st_allocs s) size),
        {| st_allocs := S (st_allocs s); st_stderr := st_stderr s;
           st_stdout := st_stdout s; st_disk := st_disk s |}).

(** *** POSIX: [scandir(dir, &namelist, filter_frames, compare_frames)]

    libc keeps the entries for which the filter returns non-zero and sorts
    them with [qsort] and the comparison; it returns -1 with [errno] set
    when the directory cannot be read. *)
Definition scandir (dir : string) (sel : dirent → Z)
    (compar : dirent → dirent → Z) : list dirent + string :=
  match dir_entries E dir with
  | inl entries => inl (qsort compar (filter (λ e, sel e ≠ 0) entries))
  | inr e => inr e
  end.

(** *** Win32: [scandir_txt] *)

Definition find_pattern (dir : string) : string :=
  str_take (PATH_BUF - 1) (dir +:+ "\*.txt").

(** The loop once [strdup] has returned NULL for a file.  The null
    pointer was stored in the array like a name, and the loop goes on
    with [count] slots filled: it grows the array and asks [strdup] for
    the names of the files that follow (a store through a null array
    pointer is undefined on the spot).  Nothing reads the null name
    before the loop ends.  After the loop the run is undefined as soon as
    the name is read: by [strcmp] in the sort when the array holds two
    names or more; with a single name the sort compares nothing,
    [scandir_txt] returns 1, and [main] makes its two [calloc] requests
    (lines 116-117) before [snprintf] reads the name (line 122). *)
Fixpoint scandir_txt_loop_null_name (fds : list WIN32_FIND_DATAA)
    (capacity count : Z) : M (list string) :=
  match fds with
  | [] =>
      if count =? 1
      then _ ← alloc (1 * 8); _ ← alloc (1 * 8); fault
      else fault
  | fd :: rest =>
      if negb (Z.land (dwFileAttributes fd) FILE_ATTRIBUTE_DIRECTORY =? 0)
      then scandir_txt_loop_null_name rest capacity count
      else
        '(capacity, live) ←
          (if count >=? capacity
           then live ← alloc (capacity * 2 * 8); mret (capacity * 2, live)
           else mret (capacity, true));
        _ ← alloc (strlen (cFileName fd) + 1);
        if (live : bool)
        then scandir_txt_loop_null_name rest capacity (count + 1)
        else fault
  end.

(** The [do ... while (FindNextFileA(h, &fd))] loop over the entries found.
    [names] is the array pointer ([None] when the allocation returned
    NULL) with the [count] names stored so far.  A store through a null
    array pointer is undefined on the spot.  When [strdup] returns NULL,
    the null pointer is stored as the name and the loop goes on as
    [scandir_txt_loop_null_name]. *)
Fixpoint scandir_txt_loop (fds : list WIN32_FIND_DATAA) (capacity : Z)
    (names : option (list string)) : M (list string) :=
  match fds with
  | [] => mret (default [] names)
  | fd :: rest =>
      if negb (Z.land (dwFileAttributes fd) FILE_ATTRIBUTE_DIRECTORY =? 0)
      then scandir_txt_loop rest capacity names
      else
        match names with
        | None => _ ← alloc (strlen (cFileName fd) + 1); fault
        | Some stored =>
            let count := Z.of_nat (length stored) in
            '(capacity, live) ←
              (if count >=? capacity
               then live ← alloc (capacity * 2 * 8); mret (capacity * 2, live)
               else mret (capacity, true));
            copied ← alloc (strlen (cFileName fd) + 1);
            if live && copied
            then scandir_txt_loop rest capacity (Some (stored ++ [cFileName fd]))
            else if (live : bool)
            then scandir_txt_loop_null_name rest capacity (count + 1)
            else fault
        end
  end.

(** [None] is the return value -1. *)
Definition scandir_txt (dir : string) : M (option (list string)) :=
  match FindFirstFileA E (find_pattern dir) with
  | None => mret None
  | Some (fd, rest) =>
      let capacity := 64 in
      live ← alloc (capacity * 8);
      names ← scandir_txt_loop (fd :: rest) capacity
                (if (live : bool) then Some [] else None);
      mret (Some (sort_names names))
  end.

(** The scan of [main]: the sorted names, or the text of [errno]. *)
Definition scan (p : platform) (frames_dir : string) : M (list string + string) :=
  match p with
  | POSIX =>
      mret (match scandir frames_dir filter_frames compare_frames with
            | inl namelist => inl (d_name <$> namelist)
            | inr e => inr e
            end)
  | WIN32 =>
      r ← scandir_txt frames_dir;
      mret (match r with
            | Some names => inl names
            | None => inr (win_errno E)
            end)
  end.

(** *** [read_file]

    [out_size] tells whether the pointer the caller passes can be stored
    through.  The result is the buffer with the size stored through
    [out_size], or [None] for NULL. *)
Definition read_file (path : string) (out_size : bool) : M (option (list byte * Z)) :=
  match fopen_rb E path with
  | inr e =>
      eprint ("Failed to open " +:+ path +:+ ": " +:+ e +:+ nl);; mret None
  | inl f =>
      let size := s_tell f in
      buf ← alloc (to_size_t size);
      if negb buf then mret None
      else
        let want := to_size_t size in
        let got := Z.min want (Z.of_nat (length (s_data f))) in
        if negb (got =? want)
        then eprint ("Failed to read " +:+ path +:+ nl);; mret None
        else
          if out_size
          then mret (Some (take (Z.to_nat want) (s_data f), to_size_t size))
          else fault
  end.

(** *** [main] *)

(** [calloc(n, elem_size)]: [None] is NULL. *)
Definition calloc {A} (n : nat) (elem_size : Z) (zero : A) : M (option (list A)) :=
  live ← alloc (Z.of_nat n * elem_size);
  mret (if (live : bool) then Some (replicate n zero) else None).

Definition non_null {A} (p : option A) : bool :=
  match p with Some _ => true | None => false end.

(** The first loop (lines 119-134) over [namelist], at index [i]. *)
Fixpoint read_frames (frames_dir : string) (n : nat) (rest : list string) (i : nat)
    (frame_contents : option (list (option (list byte))))
    (frame_sizes : option (list Z)) (total_size : Z)
    : M (option (list (option (list byte))) * option (list Z) * Z) :=
  match rest with
  | [] => mret (frame_contents, frame_sizes, total_size)
  | name :: rest' =>
      let path := snprintf_path frames_dir name in
      r ← read_file path (non_null frame_sizes);
      match frame_contents with
      | None => fault
      | Some contents =>
          match r with
          | None => exit_main 1
          | Some (buf, size) =>
              let contents := <[i := Some buf]> contents in
              let sizes := (λ sizes, <[i := size]> sizes) <$> frame_sizes in
              let total_size := to_size_t (total_size + size) in
              let total_size :=
                if Z.of_nat i <? Z.of_nat n - 1
                then to_size_t (total_size + 1) else total_size in
              read_frames frames_dir n rest' (S i) (Some contents) sizes total_size
          end
      end
  end.

(** [memcpy(dst + offset, src, n)] and [dst[offset] = b], inside the
    bounds of both buffers; [None] otherwise. *)
Definition memcpy (dst : list byte) (offset : Z) (src : list byte) (n : Z)
    : option (list byte) :=
  if (offset + n <=? Z.of_nat (length dst)) && (n <=? Z.of_nat (length src))
  then Some (take (Z.to_nat offset) dst ++ take (Z.to_nat n) src
             ++ drop (Z.to_nat (offset + n)) dst)
  else None.

Definition store_byte (dst : list byte) (offset : Z) (b : byte) : option (list byte) :=
  if offset <? Z.of_nat (length dst)
  then Some (<[Z.to_nat offset := b]> dst) else None.

(** The second loop (lines 142-149), with [todo = n - i]; [None] when a
    pointer is null or an access leaves its buffer. *)
Fixpoint join_frames (todo : nat) (i n : nat)
    (frame_contents : option (list (option (list byte))))
    (frame_sizes : option (list Z)) (joined : list byte) (offset : Z)
    : option (list byte) :=
  match todo with
  | O => Some joined
  | S todo' =>
      contents ← frame_contents;
      sizes ← frame_sizes;
      src ← contents !! i ≫= id;
      size ← sizes !! i;
      joined ← memcpy joined offset src size;
      let offset := to_size_t (offset + size) in
      if Z.of_nat i <? Z.of_nat n - 1
      then
        joined ← store_byte joined offset SEPARATOR;
        join_frames todo' (S i) n frame_contents frame_sizes joined
          (to_size_t (offset + 1))
      else join_frames todo' (S i) n frame_contents frame_sizes joined offset
  end.

Definition deflate_args : deflate_params :=
  {| level := Z_DEFAULT_COMPRESSION; method := Z_DEFLATED;
     windowBits := - MAX_WBITS; memLevel := 8;
     strategy := Z_DEFAULT_STRATEGY |}.

(** [main] runs four stages one after the other; each is given here with
    the lines of [main] it covers, and [exit_main] is [return] from
    [main]. *)

(** Lines 98-134: the scan, the two arrays and the first loop. *)
Definition collect (p : platform) (frames_dir : string)
    : M (nat * option (list (option (list byte))) * option (list Z) * Z) :=
  scanned ← scan p frames_dir;
  match scanned with
  | inr e =>
      eprint ("Failed to scan directory " +:+ frames_dir +:+ ": " +:+ e +:+ nl);;
      exit_main 1
  | inl namelist =>
      let n := length namelist in
      if bool_decide (n = 0%nat)
      then eprint ("No frame files found in " +:+ frames_dir +:+ nl);;
           exit_main 1
      else
        frame_contents ← calloc n 8 None;
        frame_sizes ← calloc n 8 0;
        '(frame_contents, frame_sizes, total_size) ←
          read_frames frames_dir n namelist 0 frame_contents frame_sizes 0;
        mret (n, frame_contents, frame_sizes, total_size)
  end.

(** Lines 136-149: the joined buffer and the second loop. *)
Definition concatenate (n : nat)
    (frame_contents : option (list (option (list byte))))
    (frame_sizes : option (list Z)) (total_size : Z) : M (list byte) :=
  live ← alloc total_size;
  if negb live
  then eprint ("Failed to allocate joined buffer" +:+ nl);; exit_main 1
  else
    match join_frames n 0 n frame_contents frame_sizes
            (junk E <$> seq 0 (Z.to_nat total_size)) 0 with
    | None => fault
    | Some joined => mret joined
    end.

(** Lines 151-179: the compression; the result is the first [total_out]
    bytes of the output buffer. *)
Definition compress (p : platform) (joined : list byte) (total_size : Z)
    : M (list byte) :=
  let compressed_size := to_uLong p (compressBound (to_uLong p total_size)) in
  live ← alloc compressed_size;
  if negb live
  then eprint ("Failed to allocate compression buffer" +:+ nl);; exit_main 1
  else
    let avail_in := to_uInt total_size in
    let avail_out := to_uInt compressed_size in
    let r := deflateInit2 E deflate_args in
    if negb (r =? Z_OK)
    then eprint ("deflateInit2 failed: " +:+ pretty r +:+ nl);; exit_main 1
    else
      let '(r, produced) :=
        deflate deflate_args Z_FINISH (take (Z.to_nat avail_in) joined) avail_out in
      if negb (r =? Z_STREAM_END)
      then eprint ("deflate failed: " +:+ pretty r +:+ nl);; exit_main 1
      else mret produced.

(** Lines 181-194: the output file.  [fopen] with mode ["wb"] creates the
    file or empties it.  [fwrite] hands the bytes to the stream and
    returns how many it took: when it took fewer than all of them, [main]
    returns at once and the file holds the bytes that were taken.  When
    it took them all, [fclose] flushes the stream, and the file holds as
    many of the bytes as the flush wrote out.  The result of [fclose] is
    not looked at: [main] returns 0 whether the flush was complete or
    not. *)
Definition persist (output_file : string) (compressed : list byte) : M Z :=
  let compressed_size := length compressed in
  match fopen_wb E output_file with
  | inr e =>
      eprint ("Failed to create " +:+ output_file +:+ ": " +:+ e +:+ nl);;
      exit_main 1
  | inl _ =>
      set_file output_file [];;
      let written := (fwrite_count E compressed_size `min` compressed_size)%nat in
      if negb (written =? compressed_size)%nat
      then
        set_file output_file (take written compressed);;
        eprint ("Failed to write compressed data" +:+ nl);; exit_main 1
      else
        let flushed := (fclose_flush E compressed_size `min` compressed_size)%nat in
        set_file output_file (take flushed compressed);;
        mret 0
  end.

(** [prog] is [argv[0]] and [args] the arguments after it, so that
    [argc] is [1 + length args]. *)
Definition main (p : platform) (prog : string) (args : list string) : M Z :=
  match args with
  | [frames_dir; output_file] =>
      '(n, frame_contents, frame_sizes, total_size) ← collect p frames_dir;
      joined ← concatenate n frame_contents frame_sizes total_size;
      compressed ← compress p joined total_size;
      persist output_file compressed
  | _ =>
      eprint ("Usage: " +:+ prog +:+ " <frames_dir> <output_file>" +:+ nl);;
      exit_main 1
  end.

End Program.

(** ** Running the program *)

Inductive result := Exited (status : Z) | Undefined.

Definition initial (disk : gmap string (list byte)) : state :=
  {| st_allocs := 0; st_stderr := []; st_stdout := []; st_disk := disk |}.

Definition run qsort compressBound deflate (E : env) (p : platform)
    (prog : string) (args : list string) (disk : gmap string (list byte))
    : result * state :=
  match main qsort compressBound deflate E p prog args (initial disk) with
  | (Ret status, s) => (Exited status, s)
  | (Exit status, s) => (Exited status, s)
  | (Fault, s) => (Undefined, s)
  end.

(** ** The Win32 loop, with the bounds of the array

    [scandir_txt_loop] reads the loop of lines 31-38 taking for granted
    that the store [names[count++] = ...] falls inside the array and that
    [capacity *= 2] fits an [int].  Here both are written out: a store at
    [count] needs [count < capacity], the doubled capacity must not
    exceed [INT_MAX], and the run is undefined otherwise. *)

Definition INT_MAX : Z := 2 ^ 31 - 1.

Fixpoint scandir_txt_loop_null_name_bounds (E : env) (fds : list WIN32_FIND_DATAA)
    (capacity count : Z) : M (list string) :=
  match fds with
  | [] =>
      if count =? 1
      then _ ← alloc E (1 * 8); _ ← alloc E (1 * 8); fault
      else fault
  | fd :: rest =>
      if negb (Z.land (dwFileAttributes fd) FILE_ATTRIBUTE_DIRECTORY =? 0)
      then scandir_txt_loop_null_name_bounds E rest capacity count
      else
        '(capacity, live) ←
          (if count >=? capacity
           then
             if capacity * 2 <=? INT_MAX
             then live ← alloc E (capacity * 2 * 8); mret (capacity * 2, live)
             else fault
           else mret (capacity, true));
        _ ← alloc E (strlen (cFileName fd) + 1);
        if (live : bool) && (count <? capacity)
        then scandir_txt_loop_null_name_bounds E rest capacity (count + 1)
        else fault
  end.

Fixpoint scandir_txt_loop_bounds (E : env) (fds : list WIN32_FIND_DATAA)
    (capacity : Z) (names : option (list string)) : M (list string) :=
  match fds with
  | [] => mret (default [] names)
  | fd :: rest =>
      if negb (Z.land (dwFileAttributes fd) FILE_ATTRIBUTE_DIRECTORY =? 0)
      then scandir_txt_loop_bounds E rest capacity names
      else
        match names with
        | None => _ ← alloc E (strlen (cFileName fd) + 1); fault
        | Some stored =>
            let count := Z.of_nat (length stored) in
            '(capacity, live) ←
              (if count >=? capacity
               then
                 if capacity * 2 <=? INT_MAX
                 then live ← alloc E (capacity * 2 * 8); mret (capacity * 2, live)
                 else fault
               else mret (capacity, true));
            copied ← alloc E (strlen (cFileName fd) + 1);
            if live && copied && (count <? capacity)
            then scandir_txt_loop_bounds E rest capacity
                   (Some (stored ++ [cFileName fd]))
            else if live && (count <? capacity)
            then scandir_txt_loop_null_name_bounds E rest capacity (count + 1)
            else fault
        end
  end.

(** * Vocabulary of the properties *)

(** ** Order of names *)

Definition name_le (a b : string) : Prop := strcmp a b ≤ 0.

(** Slots before [i] hold their final content: each is below every later
    slot. *)
Definition settled (l : list string) (i : nat) : Prop :=
  ∀ (a b : nat) x y,
    (a < b)%nat → (a < i)%nat → l !! a = Some x → l !! b = Some y → name_le x y.

(** Slot [i] is below the slots between [i] and [j]. *)
Definition least_upto (l : list string) (i j : nat) : Prop :=
  ∀ (k : nat) x y,
    (i < k < j)%nat → l !! i = Some x → l !! k = Some y → name_le x y.

(** ** Directory listings *)

(** A Win32 entry without the directory attribute. *)
Definition is_file (fd : WIN32_FIND_DATAA) : Prop :=
  Z.land (dwFileAttributes fd) FILE_ATTRIBUTE_DIRECTORY = 0.

#[global] Instance is_file_dec fd : Decision (is_file fd) :=
  Z.eq_dec (Z.land (dwFileAttributes fd) FILE_ATTRIBUTE_DIRECTORY) 0.

(** The contract of [qsort]: the result is a rearrangement of the array,
    and it is in order when the comparison is antisymmetric and is
    transitive on the elements of the array. *)
Definition qsort_contract
    (qsort : (dirent → dirent → Z) → list dirent → list dirent) : Prop :=
  ∀ cmp l,
    qsort cmp l ≡ₚ l ∧
    ((∀ a b, cmp b a = - cmp a b) →
     (∀ a b c, a ∈ l → b ∈ l → c ∈ l → cmp a b ≤ 0 → cmp b c ≤ 0 → cmp a c ≤ 0) →
     Sorted (λ a b, cmp a b ≤ 0) (qsort cmp l)).

(** Two environments list the same entries of [dir], in any order. *)
Definition same_listing (p : platform) (E1 E2 : env) (dir : string) : Prop :=
  match p with
  | POSIX =>
      ∃ l1 l2, dir_entries E1 dir = inl l1 ∧ dir_entries E2 dir = inl l2 ∧
               l1 ≡ₚ l2 ∧ Forall cstring (d_name <$> l1)
  | WIN32 =>
      ∃ f1 r1 f2 r2,
        FindFirstFileA E1 (find_pattern dir) = Some (f1, r1) ∧
        FindFirstFileA E2 (find_pattern dir) = Some (f2, r2) ∧
        f1 :: r1 ≡ₚ f2 :: r2 ∧ Forall cstring (cFileName <$> f1 :: r1)
  end.


(** ** The selection of frame files *)

(** A name with a non-empty stem before the suffix [.txt]. *)
Definition txt_name (name : string) : Prop :=
  ∃ stem, stem ≠ EmptyString ∧ name = stem +:+ ".txt".



(** ** The concatenated buffer *)

(** The buffer as the specification writes it:
    [frame_1 || 0x01 || frame_2 || ... || 0x01 || frame_N]. *)
Fixpoint frames_joined (frames : list (list byte)) : list byte :=
  match frames with
  | [] => []
  | [f] => f
  | f :: rest => f ++ SEPARATOR :: frames_joined rest
  end.

(** The sum of the frame lengths plus one separator per adjacent pair. *)
Definition joined_size (frames : list (list byte)) : Z :=
  Z.of_nat (sum_list (length <$> frames)) + Z.of_nat (pred (length frames)).

Definition frame_len (f : list byte) : Z := Z.of_nat (length f).

(** The bytes [read_file] returns for a name of the directory, when it
    returns a buffer. *)
Definition frame_of (E : env) (dir name : string) : option (list byte) :=
  match fopen_rb E (snprintf_path dir name) with
  | inl f =>
      let want := to_size_t (s_tell f) in
      if want <=? Z.of_nat (length (s_data f))
      then Some (take (Z.to_nat want) (s_data f)) else None
  | inr _ => None
  end.

(** ** Changes of the state *)

(** Only the allocation counter and standard error change. *)
Definition quiet (s s' : state) : Prop :=
  st_stdout s' = st_stdout s ∧ st_disk s' = st_disk s.

(** Nothing at all was printed or written. *)
Definition silent (s s' : state) : Prop :=
  st_stderr s' = st_stderr s ∧ quiet s s'.

(** ** Frame sets and runs *)

(** [fclose] flushes to the file every byte that [fwrite] took. *)
Definition flush_completes (E : env) : Prop :=
  ∀ n, (n ≤ fclose_flush E n)%nat.

(** The compression of the frame set [frames] succeeded with [blob]. *)
Definition packed compressBound
    (deflate : deflate_params → Z → list byte → Z → Z * list byte)
    (E : env) (p : platform) (frames : list (list byte)) (blob : list byte) : Prop :=
  joined_size frames < 2 ^ size_t_bits ∧
  deflateInit2 E deflate_args = Z_OK ∧
  deflate deflate_args Z_FINISH
    (take (Z.to_nat (to_uInt (joined_size frames))) (frames_joined frames))
    (to_uInt (to_uLong p (compressBound (to_uLong p (joined_size frames)))))
    = (Z_STREAM_END, blob).

(** The frame set of a run: the scan returned [names] and [frames] are the
    bytes of the files so named. *)
Definition frame_set qsort (E : env) (p : platform) (dir : string)
    (disk : gmap string (list byte))
    (names : list string) (frames : list (list byte)) : Prop :=
  (∃ s0, scan qsort E p dir (initial disk) = (Ret (inl names), s0)) ∧
  names ≠ [] ∧
  Forall2 (λ name f, frame_of E dir name = Some f) names frames.

(** The directory can be listed and holds no frame file: on POSIX no entry
    has a [.txt] name; on Win32 the search found entries and all of them
    are directories. *)
Definition lists_no_frame (p : platform) (E : env) (dir : string) : Prop :=
  match p with
  | POSIX =>
      ∃ entries, dir_entries E dir = inl entries ∧
                 Forall (λ e, ¬ txt_name (d_name e)) entries
  | WIN32 =>
      ∃ fd rest, FindFirstFileA E (find_pattern dir) = Some (fd, rest) ∧
                 Forall (λ fd, ¬ is_file fd) (fd :: rest)
  end.

(** The first three stages of [main], up to the compressed bytes. *)
Definition pack qsort compressBound deflate (E : env) (p : platform)
    (frames_dir : string) : M (list byte) :=
  '(n, frame_contents, frame_sizes, total_size) ← collect qsort E p frames_dir;
  joined ← concatenate E n frame_contents frame_sizes total_size;
  compress compressBound deflate E p joined total_size.

(** The state after one allocation request. *)
Definition bump (s : state) : state :=
  {| st_allocs := S (st_allocs s); st_stderr := st_stderr s;
     st_stdout := st_stdout s; st_disk := st_disk s |}.

(** ** Failures and what they print *)

(** The scan of [dir] fails, and [e] is the text of [errno]: on POSIX
    [scandir] returns -1, on Win32 [FindFirstFileA] returns no handle. *)
Definition scan_fails (p : platform) (E : env) (dir e : string) : Prop :=
  match p with
  | POSIX => dir_entries E dir = inr e
  | WIN32 => FindFirstFileA E (find_pattern dir) = None ∧ e = win_errno E
  end.

(** The line [read_file] prints about [path]: it could not be opened, or
    it was opened and [fread] came short. *)
Definition read_complaint (E : env) (path : string) : string :=
  match fopen_rb E path with
  | inr e => "Failed to open " +:+ path +:+ ": " +:+ e +:+ nl
  | inl _ => "Failed to read " +:+ path +:+ nl
  end.

(** Standard error is as it was, or has grown by one line that ends in a
    newline. *)
Definition one_line_more (s s' : state) : Prop :=
  st_stderr s' = st_stderr s ∨ ∃ text, st_stderr s' = st_stderr s ++ [text +:+ nl].

(** The allocation requests number [from] up to [upto - 1] of the run
    are granted, whatever size they ask for; the request number [k] is
    refused. *)
Definition granted (E : env) (from upto : nat) : Prop :=
  ∀ k size, (from ≤ k < upto)%nat → alloc_ok E k size = true.

Definition refused (E : env) (k : nat) : Prop :=
  ∀ size, alloc_ok E k size = false.

(** * Instances of the library contracts, and sample environments *)

(** A [qsort]: stdpp's merge sort on the comparison. *)
Definition msort (cmp : dirent → dirent → Z) (l : list dirent) : list dirent :=
  @merge_sort dirent (λ a b, cmp a b ≤ 0) (λ a b, Z_le_dec (cmp a b) 0) l.

(** zlib's [compressBound]. *)
Definition zlib_compressBound (n : Z) : Z :=
  n + Z.shiftr n 12 + Z.shiftr n 14 + Z.shiftr n 25 + 13.

Definition Z_BUF_ERROR : Z := -5.

Definition byte_of_Z (z : Z) : byte := default x00 (Byte.of_N (Z.to_N z)).
Definition Z_of_byte (b : byte) : Z := Z.of_N (Byte.to_N b).

(** A raw-DEFLATE compressor that emits one final stored block (block
    header 1, LEN, NLEN, then the bytes), for inputs of at most 65535
    bytes, and the matching decompressor. *)
Definition stored_deflate (params : deflate_params) (flush : Z)
    (input : list byte) (avail_out : Z) : Z * list byte :=
  let n := Z.of_nat (length input) in
  if (n <=? 65535) && (n + 5 <=? avail_out)
  then (Z_STREAM_END,
        x01 :: byte_of_Z (n mod 256) :: byte_of_Z (n / 256)
            :: byte_of_Z ((65535 - n) mod 256) :: byte_of_Z ((65535 - n) / 256)
            :: input)
  else (Z_BUF_ERROR, []).

Definition stored_inflate (wbits : Z) (blob : list byte) : option (list byte) :=
  match blob with
  | b :: l0 :: l1 :: n0 :: n1 :: data =>
      let len := Z_of_byte l0 + 256 * Z_of_byte l1 in
      let nlen := Z_of_byte n0 + 256 * Z_of_byte n1 in
      if Byte.eqb b x01 && (len + nlen =? 65535)
         && (Z.of_nat (length data) =? len)
      then Some data else None
  | _ => None
  end.

Definition file_bytes (s : string) : list byte := list_byte_of_string s.

(** What the Win32 search reports for an entry. *)
Definition found (e : dirent) : WIN32_FIND_DATAA :=
  {| dwFileAttributes := match d_type e with DT_DIR => 16 | _ => 32 end;
     cFileName := d_name e |}.

(** A directory [frames] with the given entries; [a.txt] holds "AA" and
    [b.txt] holds "BB"; the allocator and [fwrite] are parameters, and
    [fclose] flushes every byte.  The
    Win32 search reports the entries that match the pattern, and returns
    no handle when no entry matches, as [FindFirstFileA] does. *)
Definition sample_env (entries : list dirent) (alloc : nat → Z → bool)
    (fwrite : nat → nat) : env :=
  {| alloc_ok := alloc;
     junk := λ _, xff;
     dir_entries := λ dir,
       if String.eqb dir "frames" then inl entries
       else inr "No such file or directory"%string;
     FindFirstFileA := λ pattern,
       match filter (λ e, filter_frames e ≠ 0) entries with
       | e :: rest =>
           if String.eqb pattern "frames\*.txt"
           then Some (found e, found <$> rest)
           else None
       | [] => None
       end;
     win_errno := "No error";
     fopen_rb := λ path,
       if String.eqb path "frames/a.txt"
       then inl {| s_tell := 2; s_data := file_bytes "AA" |}
       else if String.eqb path "frames/b.txt"
       then inl {| s_tell := 2; s_data := file_bytes "BB" |}
       else inr "No such file or directory"%string;
     deflateInit2 := λ _, Z_OK;
     fopen_wb := λ _, inl ();
     fwrite_count := fwrite;
     fclose_flush := λ n, n |}.

Definition entry (name : string) : dirent := {| d_name := name; d_type := DT_REG |}.

Definition always (k : nat) (size : Z) : bool := true.
Definition all_but (failing : nat) (k : nat) (size : Z) : bool := negb (k =? failing)%nat.

(** A directory [frames] whose only file [a.txt] holds [data] and has
    the size [size]. *)
Definition one_frame_env (size : Z) (data : list byte) : env :=
  {| alloc_ok := always;
     junk := λ _, xff;
     dir_entries := λ dir, inl [entry "a.txt"];
     FindFirstFileA := λ pattern, None;
     win_errno := "No error";
     fopen_rb := λ path, inl {| s_tell := size; s_data := data |};
     deflateInit2 := λ _, Z_OK;
     fopen_wb := λ _, inl ();
     fwrite_count := λ n, n;
     fclose_flush := λ n, n |}.

(** The run on a directory whose single frame has [size] bytes, [N] as a
    natural number: it succeeds, and the output file decompresses to the
    empty buffer although the joined buffer is the whole frame. *)
Definition truncated_run (N : nat) (size : Z) : Prop :=
  ∃ s' blob,
    run msort zlib_compressBound stored_deflate
      (one_frame_env size (replicate N x00)) POSIX "framegen"
      ["frames"; "out.bin"] ∅ = (Exited 0, s') ∧
    frame_set msort (one_frame_env size (replicate N x00)) POSIX "frames" ∅
      ["a.txt"] [replicate N x00] ∧
    frames_joined [replicate N x00] = replicate N x00 ∧
    Z.of_nat (length (replicate N x00)) = size ∧
    st_disk s' !! "out.bin" = Some blob ∧
    stored_inflate (- MAX_WBITS) blob = Some [].

(** The directory [frames] with [b.txt], [a.png] and [a.txt], enumerated
    in two orders. *)
Definition sample_entries : list dirent := [entry "b.txt"; entry "a.png"; entry "a.txt"].

Definition sample : env := sample_env sample_entries always (λ n, n).
Definition sample_reversed : env :=
  sample_env (reverse sample_entries) always (λ n, n).

(** The directory [frames] with [a.txt] and [b.txt]; the allocation
    request number [failing] of the run returns NULL. *)
Definition starved (failing : nat) : env :=
  sample_env [entry "b.txt"; entry "a.txt"] (all_but failing) (λ n, n).

Definition ended (r : result) (allocs : nat) (err : list string) : result * state :=
  (r, {| st_allocs := allocs; st_stderr := err; st_stdout := []; st_disk := ∅ |}).

(** [E] with a [deflateInit2] that returns [r], and with another
    [fopen(path, "wb")]. *)
Definition with_deflateInit2 (E : env) (r : Z) : env :=
  {| alloc_ok := alloc_ok E; junk := junk E; dir_entries := dir_entries E;
     FindFirstFileA := FindFirstFileA E; win_errno := win_errno E;
     fopen_rb := fopen_rb E; deflateInit2 := λ _, r;
     fopen_wb := fopen_wb E; fwrite_count := fwrite_count E;
     fclose_flush := fclose_flush E |}.

Definition with_fopen_wb (E : env) (open : string → unit + string) : env :=
  {| alloc_ok := alloc_ok E; junk := junk E; dir_entries := dir_entries E;
     FindFirstFileA := FindFirstFileA E; win_errno := win_errno E;
     fopen_rb := fopen_rb E; deflateInit2 := deflateInit2 E;
     fopen_wb := open; fwrite_count := fwrite_count E;
     fclose_flush := fclose_flush E |}.

(** [E] with an [fclose] whose flush leaves [flushed n] of [n] bytes in
    the file. *)
Definition with_fclose_flush (E : env) (flushed : nat → nat) : env :=
  {| alloc_ok := alloc_ok E; junk := junk E; dir_entries := dir_entries E;
     FindFirstFileA := FindFirstFileA E; win_errno := win_errno E;
     fopen_rb := fopen_rb E; deflateInit2 := deflateInit2 E;
     fopen_wb := fopen_wb E; fwrite_count := fwrite_count E;
     fclose_flush := flushed |}.

(** The directory [frames] lists [c.txt] and [a.txt]; there is no file
    [frames/c.txt] to open. *)
Definition unreadable : env := sample_env [entry "c.txt"; entry "a.txt"] always (λ n, n).

(** A directory name of [k] bytes. *)
Definition long_name (k : nat) : string := string_of_list_ascii (replicate k "d"%char).

(** The compressed bytes of the sample directory: one stored block that
    holds [AA], the separator and [BB]. *)
Definition sample_blob : list byte :=
  x01 :: x05 :: x00 :: xfa :: xff :: file_bytes "AA" ++ x01 :: file_bytes "BB".

(** The state in which the run on the sample directory ends. *)
Definition sample_end : state :=
  {| st_allocs := 6; st_stderr := []; st_stdout := [];
     st_disk := {["out.bin" := sample_blob]} |}.

(** The state in which it ends when [fclose] has flushed nothing: the
    output file is there and is empty. *)
Definition unflushed_end : state :=
  {| st_allocs := 6; st_stderr := []; st_stdout := [];
     st_disk := {["out.bin" := []]} |}.

(** * Properties *)

(** Unfolding one step of the monad. *)
Ltac step_M :=
  unfold mbind, M_bind, mret, M_ret, exit_main, fault, eprint, set_file in *;
  simpl in *.

(** ** Facts about [strcmp] *)

Lemma uchar_inj c1 c2 : uchar c1 = uchar c2 → c1 = c2.
Proof.
  unfold uchar. intros H. apply N2Z.inj in H.
  rewrite <- (ascii_N_embedding c1), <- (ascii_N_embedding c2). by rewrite H.
Qed.

Lemma uchar_nonneg c : 0 ≤ uchar c.
Proof. unfold uchar. lia. Qed.

Lemma strcmp_refl s : strcmp s s = 0.
Proof. induction s as [|c r IH]; simpl; [done|]. by rewrite Z.eqb_refl. Qed.

Lemma strcmp_opp s1 s2 : strcmp s2 s1 = - strcmp s1 s2.
Proof.
  revert s2. induction s1 as [|c1 r1 IH]; intros [|c2 r2]; simpl; try lia.
  rewrite (Z.eqb_sym (uchar c2)). destruct (uchar c1 =? uchar c2); [apply IH|lia].
Qed.

Lemma strcmp_eq s1 s2 : cstring s1 → cstring s2 → strcmp s1 s2 = 0 → s1 = s2.
Proof.
  revert s2. induction s1 as [|c1 r1 IH]; intros [|c2 r2]; simpl; try done.
  - intros _ [? _] ?. lia.
  - intros [? _] _ ?. lia.
  - intros [_ H1] [_ H2]. destruct (uchar c1 =? uchar c2) eqn:E.
    + apply Z.eqb_eq, uchar_inj in E. intros ?. subst. f_equal. by apply IH.
    + apply Z.eqb_neq in E. lia.
Qed.

Lemma strcmp_trans s1 s2 s3 :
  cstring s1 → cstring s2 → cstring s3 →
  strcmp s1 s2 ≤ 0 → strcmp s2 s3 ≤ 0 → strcmp s1 s3 ≤ 0.
Proof.
  revert s2 s3. induction s1 as [|c1 r1 IH]; intros [|c2 r2] [|c3 r3]; simpl;
    intros H1 H2 H3 H12 H23;
    repeat match goal with c : ascii |- _ =>
      lazymatch goal with
      | _ : 0 ≤ uchar c |- _ => fail
      | _ => pose proof (uchar_nonneg c)
      end end;
    try lia.
  destruct H1 as [_ H1], H2 as [_ H2], H3 as [_ H3].
  destruct (uchar c1 =? uchar c2) eqn:E12, (uchar c2 =? uchar c3) eqn:E23,
    (uchar c1 =? uchar c3) eqn:E13;
    rewrite ?Z.eqb_eq, ?Z.eqb_neq in *; try lia.
  by apply (IH r2 r3).
Qed.

(** ** The Win32 sort sorts *)

Section ExchangeSort.
Local Open Scope nat_scope.

Lemma lookup_exchange (l : list string) i j a b k :
  i < length l → j < length l → i ≠ j →
  <[j := a]> (<[i := b]> l) !! k =
    if decide (k = j) then Some a else if decide (k = i) then Some b else l !! k.
Proof.
  intros Hi Hj Hij. destruct (decide (k = j)) as [->|Hkj].
  - apply list_lookup_insert_eq. by rewrite length_insert.
  - rewrite list_lookup_insert_ne by done. destruct (decide (k = i)) as [->|Hki].
    + by apply list_lookup_insert_eq.
    + by rewrite list_lookup_insert_ne.
Qed.

Lemma insert_cons_perm (l : list string) j a b :
  l !! j = Some b → b :: <[j := a]> l ≡ₚ a :: l.
Proof.
  revert j. induction l as [|x l IH]; intros [|j]; simpl; try done.
  - intros [= ->]. apply Permutation_swap.
  - intros H. rewrite (Permutation_swap x b), (IH _ H). apply Permutation_swap.
Qed.

Lemma exchange_perm (l : list string) i j a b :
  i < j → l !! i = Some a → l !! j = Some b →
  <[j := a]> (<[i := b]> l) ≡ₚ l.
Proof.
  revert i j. induction l as [|x l IH]; intros [|i] [|j] Hij; simpl; try done; try lia.
  - intros [= ->] Hb. by apply insert_cons_perm.
  - intros Ha Hb. f_equiv. apply IH; [lia|done..].
Qed.

Lemma sort_step_length l i j : length (sort_step l i j) = length l.
Proof.
  unfold sort_step. destruct (l !! i), (l !! j); try done.
  case_match; [|done]. by rewrite !length_insert.
Qed.

Lemma sort_step_perm l i j : i < j → sort_step l i j ≡ₚ l.
Proof.
  intros Hij. unfold sort_step.
  destruct (l !! i) eqn:Hi, (l !! j) eqn:Hj; try done.
  case_match; [|done]. by apply exchange_perm.
Qed.

Lemma sort_step_inv l i j :
  Forall cstring l → i < j → j < length l →
  settled l i → least_upto l i j →
  settled (sort_step l i j) i ∧ least_upto (sort_step l i j) i (S j).
Proof.
  intros Hc Hij Hj Hs Hl. unfold sort_step.
  destruct (lookup_lt_is_Some_2 l i) as [a Ha]; [lia|].
  destruct (lookup_lt_is_Some_2 l j) as [b Hb]; [done|].
  rewrite Ha, Hb.
  assert (cstring a) as Hca by (eapply Forall_lookup_1; eauto).
  assert (cstring b) as Hcb by (eapply Forall_lookup_1; eauto).
  destruct (strcmp a b >? 0)%Z eqn:Hcmp.
  - apply Z.gtb_lt in Hcmp. split.
    + intros a0 b0 x y Hab Ha0.
      rewrite !lookup_exchange by lia.
      repeat case_decide; try lia; intros Hx Hy; simplify_eq.
      all: eapply (Hs a0); cycle 2; [eassumption|eassumption|lia..].
    + intros k x y Hk. rewrite !lookup_exchange by lia.
      repeat case_decide; try lia; intros Hx Hy; simplify_eq.
      * unfold name_le. rewrite (strcmp_opp y x). lia.
      * assert (cstring y) by (eapply Forall_lookup_1; eauto).
        apply (strcmp_trans x a y); try done.
        -- rewrite (strcmp_opp a x). lia.
        -- by apply (Hl k a y); try lia.
  - rewrite Z.gtb_ltb in Hcmp. apply Z.ltb_ge in Hcmp. split; [done|].
    intros k x y Hk Hx Hy. destruct (decide (k = j)) as [->|].
    + by simplify_eq.
    + apply (Hl k x y); [lia|done..].
Qed.

Lemma sort_inner_inv todo l i j :
  Forall cstring l → i < j → j + todo = length l →
  settled l i → least_upto l i j →
  let r := sort_inner todo i j l in
  r ≡ₚ l ∧ settled r (S i).
Proof.
  revert l j. induction todo as [|todo IH]; intros l j Hc Hij Hlen Hs Hl; simpl.
  - split; [done|]. intros a b x y Hab Ha Hx Hy.
    destruct (decide (a = i)) as [->|].
    + apply (Hl b x y); [|done..]. apply lookup_lt_Some in Hy. lia.
    + apply (Hs a b x y); [done|lia|done..].
  - destruct (sort_step_inv l i j) as [Hs' Hl']; [done|done|lia|done..|].
    pose proof (sort_step_perm l i j Hij) as Hp.
    destruct (IH (sort_step l i j) (S j)) as [Hp' Hr]; try done.
    + by rewrite Hp.
    + lia.
    + rewrite sort_step_length. lia.
    + split; [by rewrite Hp'|done].
Qed.

Lemma sort_outer_inv todo l i :
  Forall cstring l → i + todo = length l - 1 → settled l i →
  let r := sort_outer todo i l in
  r ≡ₚ l ∧ settled r (length l - 1).
Proof.
  revert l i. induction todo as [|todo IH]; intros l i Hc Hlen Hs; simpl.
  - split; [done|]. by replace (length l - 1) with i by lia.
  - destruct (sort_inner_inv (length l - (i + 1)) l i (i + 1)) as [Hp Hs'];
      [done|lia|lia|done| |].
    { intros k x y Hk. lia. }
    pose proof (Permutation_length Hp) as Hlen'.
    destruct (IH (sort_inner (length l - (i + 1)) i (i + 1) l) (S i))
      as [Hp' Hr]; try done.
    + by rewrite Hp.
    + rewrite Hlen'. lia.
    + rewrite Hlen' in Hr. split; [by rewrite Hp'|done].
Qed.

Lemma settled_all_sorted (l : list string) :
  settled l (length l - 1) → StronglySorted name_le l.
Proof.
  intros Hs.
  assert (∀ a b x y, a < b → l !! a = Some x → l !! b = Some y → name_le x y) as H.
  { intros a b x y Hab Hx Hy. apply (Hs a b x y); try done.
    apply lookup_lt_Some in Hy. lia. }
  clear Hs. induction l as [|x l IH]; constructor.
  - apply IH. intros a b x' y' Hab Hx Hy. by apply (H (S a) (S b) x' y'); [lia|..].
  - apply Forall_lookup_2. intros k y Hy. by apply (H 0 (S k) x y); [lia|..].
Qed.

(** [sort_names] returns the names it was given, in [strcmp] order. *)
Lemma sort_names_sorted (names : list string) :
  Forall cstring names →
  sort_names names ≡ₚ names ∧ StronglySorted name_le (sort_names names).
Proof.
  intros Hc. unfold sort_names.
  destruct (sort_outer_inv (length names - 1) names 0) as [Hp Hs]; [done|lia| |].
  { intros a b x y _ Ha. lia. }
  split; [done|]. apply settled_all_sorted. by rewrite (Permutation_length Hp).
Qed.

End ExchangeSort.

(** ** The order of the frame set *)

Lemma Sorted_name_le_strongly (l : list string) :
  Forall cstring l → Sorted name_le l → StronglySorted name_le l.
Proof.
  intros Hc Hs. induction Hs as [|x l Hs IH Hd]; [constructor|].
  apply Forall_cons in Hc as [Hx Hc]. specialize (IH Hc).
  constructor; [done|].
  destruct Hd as [|y l Hxy]; [constructor|].
  apply Forall_cons in Hc as [Hy Hc].
  apply StronglySorted_inv in IH as [_ Hl].
  constructor; [done|].
  rewrite Forall_forall in Hc, Hl. apply Forall_forall. intros z Hz.
  apply (strcmp_trans x y z); auto. by apply Hl.
Qed.

Lemma sorted_names_unique (l1 l2 : list string) :
  Forall cstring l1 → Forall cstring l2 →
  StronglySorted name_le l1 → StronglySorted name_le l2 →
  l1 ≡ₚ l2 → l1 = l2.
Proof.
  intros H1 H2. apply StronglySorted_unique_strong.
  intros x1 x2 Hx1 Hx2 H12 H21. rewrite Forall_forall in H1, H2.
  apply strcmp_eq; auto. unfold name_le in *. rewrite (strcmp_opp x1 x2) in H21. lia.
Qed.

(** Once a null name is stored the loop does not return: the run is
    undefined before anything is printed or written. *)
Lemma scandir_txt_loop_null_name_outcome E fds capacity count s :
  match scandir_txt_loop_null_name E fds capacity count s with
  | (Fault, s') => silent s s'
  | _ => False
  end.
Proof.
  revert capacity count s. induction fds as [|fd fds IH]; intros capacity count s.
  { cbn [scandir_txt_loop_null_name]. by destruct (count =? 1). }
  cbn [scandir_txt_loop_null_name].
  destruct (negb _); [apply IH|].
  unfold mbind, M_bind, mret, M_ret, alloc, fault.
  destruct (count >=? capacity); cbv beta iota;
    repeat (match goal with
            | |- context [alloc_ok ?E ?k ?z] => destruct (alloc_ok E k z)
            end; cbn [andb]); try done;
    match goal with
    | |- context [scandir_txt_loop_null_name E fds ?c ?n ?s1] =>
        specialize (IH c n s1);
        destruct (scandir_txt_loop_null_name E fds c n s1) as [[?|?|] ?]; done
    end.
Qed.

(** What the Win32 loop has stored when it returns. *)
Lemma scandir_txt_loop_names E fds capacity names s r s' :
  scandir_txt_loop E fds capacity names s = (Ret r, s') →
  r = default [] names ++ (cFileName <$> filter is_file fds).
Proof.
  revert capacity names s. induction fds as [|fd fds IH]; intros capacity names s; simpl.
  - step_M. intros [= <- <-]. by rewrite app_nil_r.
  - rewrite filter_cons. unfold is_file at 2.
    destruct (Z.land (dwFileAttributes fd) FILE_ATTRIBUTE_DIRECTORY =? 0) eqn:Hd; simpl.
    + apply Z.eqb_eq in Hd. rewrite decide_True by done.
      destruct names as [stored|]; [|by step_M].
      step_M. unfold alloc.
      destruct (Z.of_nat (length stored) >=? capacity); simpl;
        repeat (case_match; simpl; try done);
        intros Hr;
        first
          [ apply IH in Hr; subst; simpl; by rewrite <- app_assoc
          | match type of Hr with
            | scandir_txt_loop_null_name ?E ?f ?c ?n ?s1 = _ =>
                pose proof (scandir_txt_loop_null_name_outcome E f c n s1) as Hn;
                rewrite Hr in Hn; done
            end ].
    + apply Z.eqb_neq in Hd. rewrite decide_False by done. apply IH.
Qed.

Lemma Forall_filter_keep {A} (P Q : A → Prop) `{∀ x, Decision (P x)} (l : list A) :
  Forall Q l → Forall Q (filter P l).
Proof.
  rewrite !Forall_forall. intros HQ x Hx. apply HQ.
  by apply list_elem_of_filter in Hx as [_ ?].
Qed.

Lemma posix_scan_names qsort E dir entries :
  qsort_contract qsort →
  dir_entries E dir = inl entries →
  Forall cstring (d_name <$> entries) →
  ∃ names,
    scandir qsort E dir filter_frames compare_frames
      = inl (qsort compare_frames (filter (λ e, filter_frames e ≠ 0) entries)) ∧
    names = d_name <$> qsort compare_frames (filter (λ e, filter_frames e ≠ 0) entries) ∧
    names ≡ₚ d_name <$> filter (λ e, filter_frames e ≠ 0) entries ∧
    Forall cstring names ∧ StronglySorted name_le names.
Proof.
  intros Hq Hd Hc. eexists. split; [|split; [done|]].
  { unfold scandir. by rewrite Hd. }
  set (sel := filter _ entries).
  destruct (Hq compare_frames sel) as [Hp Hs].
  assert (Forall cstring (d_name <$> sel)) as Hcs.
  { rewrite Forall_fmap in Hc |- *. by apply Forall_filter_keep. }
  assert (Forall cstring (d_name <$> qsort compare_frames sel)) as Hcq by (by rewrite Hp).
  split; [by rewrite Hp|]. split; [done|].
  apply Sorted_name_le_strongly; [done|].
  apply (Sorted_fmap _ (λ a b, compare_frames a b ≤ 0)); [done|].
  apply Hs.
  - intros a b. apply strcmp_opp.
  - rewrite Forall_fmap, Forall_forall in Hcs.
    intros a b c Ha Hb Hc'. apply strcmp_trans; by apply Hcs.
Qed.

Lemma win32_scan_names E dir fd rest s names s' :
  FindFirstFileA E (find_pattern dir) = Some (fd, rest) →
  Forall cstring (cFileName <$> fd :: rest) →
  scandir_txt E dir s = (Ret (Some names), s') →
  names ≡ₚ cFileName <$> filter is_file (fd :: rest) ∧
  Forall cstring names ∧ StronglySorted name_le names.
Proof.
  intros Hf Hc. unfold scandir_txt. rewrite Hf.
  unfold mbind, M_bind, mret, M_ret, alloc. cbv beta iota.
  destruct (scandir_txt_loop _ _ _ _ _) as [[r| |] s2] eqn:Hloop; try done.
  intros [= <- <-]. apply scandir_txt_loop_names in Hloop.
  assert (r = cFileName <$> filter is_file (fd :: rest)) as ->.
  { rewrite Hloop. by destruct (alloc_ok _ _ _). }
  assert (Forall cstring (cFileName <$> filter is_file (fd :: rest))) as Hcs.
  { rewrite Forall_fmap in Hc |- *. by apply Forall_filter_keep. }
  destruct (sort_names_sorted _ Hcs) as [Hp Hs].
  split; [done|]. split; [by rewrite Hp|done].
Qed.

(** Both scanners: the names come out in [strcmp] order, and the order in
    which the directory is enumerated does not matter. *)
Lemma scan_names_sorted qsort p E1 E2 dir s1 s2 names1 names2 s1' s2' :
  qsort_contract qsort →
  same_listing p E1 E2 dir →
  scan qsort E1 p dir s1 = (Ret (inl names1), s1') →
  scan qsort E2 p dir s2 = (Ret (inl names2), s2') →
  names1 = names2 ∧ StronglySorted name_le names1.
Proof.
  intros Hq Hsame H1 H2. destruct p; simpl in Hsame.
  - destruct Hsame as (l1 & l2 & Hd1 & Hd2 & Hperm & Hc1).
    assert (Forall cstring (d_name <$> l2)) as Hc2 by (by rewrite <- Hperm).
    destruct (posix_scan_names qsort E1 dir l1 Hq Hd1 Hc1)
      as (n1 & He1 & -> & Hp1 & Hcs1 & Hs1).
    destruct (posix_scan_names qsort E2 dir l2 Hq Hd2 Hc2)
      as (n2 & He2 & -> & Hp2 & Hcs2 & Hs2).
    simpl in H1, H2. step_M. rewrite He1 in H1. rewrite He2 in H2.
    injection H1 as <- <-. injection H2 as <- <-.
    split; [|done].
    apply sorted_names_unique; try done.
    by rewrite Hp1, Hp2, Hperm.
  - destruct Hsame as (f1 & r1 & f2 & r2 & Hf1 & Hf2 & Hperm & Hc1).
    assert (Forall cstring (cFileName <$> f2 :: r2)) as Hc2 by (by rewrite <- Hperm).
    simpl in H1, H2. step_M.
    destruct (scandir_txt E1 dir s1) as [[[n1|]| |] t1] eqn:Hs1; try done.
    destruct (scandir_txt E2 dir s2) as [[[n2|]| |] t2] eqn:Hs2; try done.
    injection H1 as <- <-. injection H2 as <- <-.
    destruct (win32_scan_names _ _ _ _ _ _ _ Hf1 Hc1 Hs1) as (Hp1 & Hcs1 & Hso1).
    destruct (win32_scan_names _ _ _ _ _ _ _ Hf2 Hc2 Hs2) as (Hp2 & Hcs2 & Hso2).
    split; [|done].
    apply sorted_names_unique; try done.
    by rewrite Hp1, Hp2, Hperm.
Qed.




(** ** The selection of frame files *)

Lemma strcmp_eq_same_length s1 s2 :
  String.length s1 = String.length s2 → strcmp s1 s2 = 0 → s1 = s2.
Proof.
  revert s2. induction s1 as [|c1 r1 IH]; intros [|c2 r2]; simpl; try done.
  intros [= Hlen]. destruct (uchar c1 =? uchar c2) eqn:E.
  - apply Z.eqb_eq, uchar_inj in E. intros ?. subst. f_equal. by apply IH.
  - apply Z.eqb_neq in E. lia.
Qed.

Lemma str_advance_length k s :
  String.length (str_advance k s) = (String.length s - k)%nat.
Proof. revert s. induction k as [|k IH]; intros [|c r]; simpl; auto with lia. Qed.

Lemma str_take_advance k s : str_take k s +:+ str_advance k s = s.
Proof.
  revert s. induction k as [|k IH]; intros [|c r]; simpl; try done.
  change (String c (str_take k r +:+ str_advance k r) = String c r).
  f_equal. apply IH.
Qed.

Lemma str_advance_app s t : str_advance (String.length s) (s +:+ t) = t.
Proof.
  induction s as [|c r IH]; [done|].
  change (str_advance (String.length r) (r +:+ t) = t). apply IH.
Qed.

Lemma str_length_app s t :
  String.length (s +:+ t) = (String.length s + String.length t)%nat.
Proof.
  induction s as [|c r IH]; [done|].
  change (S (String.length (r +:+ t)) = S (String.length r + String.length t)).
  f_equal. apply IH.
Qed.

(** [filter_frames] accepts exactly the names with a non-empty stem and
    the suffix [.txt], byte for byte. *)
Lemma filter_frames_spec (e : dirent) :
  filter_frames e ≠ 0 ↔ txt_name (d_name e).
Proof.
  unfold filter_frames, txt_name, strlen. set (name := d_name e). split.
  - intros H.
    destruct (Z.of_nat (String.length name) >? 4) eqn:Hlen; simpl in H; [|done].
    destruct (strcmp _ _ =? 0) eqn:Hcmp; [|done].
    apply Z.gtb_lt in Hlen. apply Z.eqb_eq in Hcmp.
    replace (Z.to_nat (Z.of_nat (String.length name) - 4))
      with (String.length name - 4)%nat in Hcmp by lia.
    apply strcmp_eq_same_length in Hcmp.
    2:{ rewrite str_advance_length. simpl. lia. }
    exists (str_take (String.length name - 4) name). split.
    + destruct name as [|c r]; simpl in *; [lia|].
      destruct (String.length r - 3)%nat eqn:Hn; simpl; [lia|done].
    + rewrite <- Hcmp. symmetry. apply str_take_advance.
  - intros (stem & Hne & Hname). rewrite Hname, str_length_app. simpl.
    assert (String.length stem ≠ 0%nat) by (by destruct stem).
    replace (Z.to_nat (Z.of_nat (String.length stem + 4) - 4))
      with (String.length stem) by lia.
    rewrite str_advance_app.
    destruct (Z.of_nat (String.length stem + 4) >? 4) eqn:Hlen; [done|].
    rewrite Z.gtb_ltb in Hlen. apply Z.ltb_ge in Hlen. lia.
Qed.


(** ** The concatenated buffer *)

Lemma frames_joined_cons f rest :
  rest ≠ [] → frames_joined (f :: rest) = f ++ SEPARATOR :: frames_joined rest.
Proof. by destruct rest. Qed.

Lemma frames_joined_length frames :
  Z.of_nat (length (frames_joined frames)) = joined_size frames.
Proof.
  unfold joined_size. induction frames as [|f [|g rest] IH]; simpl in *.
  - done.
  - rewrite Nat.add_0_r. lia.
  - rewrite length_app. simpl. lia.
Qed.

Lemma joined_size_cons f rest :
  rest ≠ [] → joined_size (f :: rest) = frame_len f + 1 + joined_size rest.
Proof. unfold joined_size, frame_len. destruct rest; [done|]. simpl. lia. Qed.

Lemma joined_size_nonneg frames : 0 ≤ joined_size frames.
Proof. unfold joined_size. lia. Qed.

Lemma memcpy_app (P J f : list byte) :
  (length f ≤ length J)%nat →
  memcpy (P ++ J) (Z.of_nat (length P)) f (frame_len f)
    = Some (P ++ f ++ drop (length f) J).
Proof.
  intros Hlen. unfold memcpy, frame_len. rewrite length_app.
  rewrite (proj2 (Z.leb_le _ _)) by lia. rewrite Z.leb_refl. simpl.
  rewrite !Nat2Z.id, <- Nat2Z.inj_add, Nat2Z.id.
  rewrite take_app_length, firstn_all, drop_app_add. done.
Qed.

Lemma store_byte_app (P J : list byte) b :
  (1 ≤ length J)%nat →
  store_byte (P ++ J) (Z.of_nat (length P)) b = Some (P ++ b :: drop 1 J).
Proof.
  intros Hlen. unfold store_byte. rewrite length_app.
  rewrite (proj2 (Z.ltb_lt _ _)) by lia. rewrite Nat2Z.id.
  destruct J as [|x J]; simpl in *; [lia|].
  rewrite insert_app_r_alt by done. rewrite Nat.sub_diag. by rewrite drop_0.
Qed.

Lemma to_size_t_small z : 0 ≤ z < 2 ^ size_t_bits → to_size_t z = z.
Proof. intros. unfold to_size_t. by apply Z.mod_small. Qed.

(** The second loop writes the frames that remain behind what is already
    in place, and nothing else. *)
Lemma join_frames_spec (frames done rest : list (list byte)) (P J : list byte) :
  frames = done ++ rest →
  Z.of_nat (length J) = joined_size rest →
  Z.of_nat (length P) + Z.of_nat (length J) < 2 ^ size_t_bits →
  join_frames (length rest) (length done) (length frames)
    (Some (Some <$> frames)) (Some (frame_len <$> frames))
    (P ++ J) (Z.of_nat (length P))
  = Some (P ++ frames_joined rest).
Proof.
  revert done P J. induction rest as [|f rest IH]; intros done P J Hfr HJ Hfit.
  - simpl. unfold joined_size in HJ. simpl in HJ.
    destruct J; [done|simpl in HJ; lia].
  - cbn [join_frames length]. subst frames.
    cbn [mbind option_bind].
    rewrite !list_lookup_fmap, !lookup_app_r by done.
    rewrite Nat.sub_diag. cbn [lookup list_lookup fmap option_fmap option_map mbind option_bind id].
    destruct (decide (rest = [])) as [->|Hne].
    + unfold joined_size in HJ. simpl in HJ. rewrite Nat.add_0_r in HJ.
      rewrite memcpy_app by lia. cbn [mbind option_bind].
      rewrite length_app. simpl length.
      rewrite (proj2 (Z.ltb_ge _ _)) by lia.
      simpl. rewrite drop_ge by lia. by rewrite app_nil_r.
    + rewrite joined_size_cons in HJ by done. unfold frame_len in HJ.
      pose proof (joined_size_nonneg rest).
      rewrite memcpy_app by lia. cbn [mbind option_bind].
      rewrite length_app. simpl length.
      assert (length rest ≠ 0%nat) by (by destruct rest).
      rewrite (proj2 (Z.ltb_lt _ _)) by lia.
      rewrite (to_size_t_small (Z.of_nat (length P) + frame_len f))
        by (unfold frame_len; lia).
      replace (Z.of_nat (length P) + frame_len f)
        with (Z.of_nat (length (P ++ f))) by (rewrite length_app; unfold frame_len; lia).
      rewrite (app_assoc P f), store_byte_app by (rewrite length_drop; lia).
      cbn [mbind option_bind].
      rewrite to_size_t_small by (rewrite length_app; lia).
      replace (Z.of_nat (length (P ++ f)) + 1)
        with (Z.of_nat (length ((P ++ f) ++ [SEPARATOR])))
        by (rewrite !length_app; simpl; lia).
      rewrite drop_drop.
      replace ((P ++ f) ++ SEPARATOR :: drop (length f + 1) J)
        with (((P ++ f) ++ [SEPARATOR]) ++ drop (length f + 1) J)
        by (by rewrite <- !app_assoc).
      replace (S (length done)) with (length (done ++ [f]))
        by (rewrite length_app; simpl; lia).
      replace (length done + S (length rest))%nat
        with (length (done ++ f :: rest)) by (rewrite length_app; simpl; lia).
      rewrite (IH (done ++ [f]) ((P ++ f) ++ [SEPARATOR]) (drop (length f + 1) J)).
      * rewrite frames_joined_cons by done. by rewrite <- !app_assoc.
      * by rewrite <- app_assoc.
      * rewrite length_drop. lia.
      * rewrite !length_app, length_drop. simpl. lia.
Qed.

(** The loop completes only when the buffer has room for every frame and
    separator that remains. *)
Lemma join_frames_fits (frames done rest : list (list byte)) (P J r : list byte) :
  frames = done ++ rest →
  Z.of_nat (length P) + Z.of_nat (length J) < 2 ^ size_t_bits →
  join_frames (length rest) (length done) (length frames)
    (Some (Some <$> frames)) (Some (frame_len <$> frames))
    (P ++ J) (Z.of_nat (length P)) = Some r →
  joined_size rest ≤ Z.of_nat (length J).
Proof.
  revert done P J. induction rest as [|f rest IH]; intros done P J Hfr Hfit.
  - intros _. unfold joined_size. simpl. lia.
  - cbn [join_frames length]. subst frames. cbn [mbind option_bind].
    rewrite !list_lookup_fmap, !lookup_app_r by done.
    rewrite Nat.sub_diag.
    cbn [lookup list_lookup fmap option_fmap option_map mbind option_bind id].
    destruct (decide (length f ≤ length J)%nat) as [Hf|Hf].
    2:{ unfold memcpy, frame_len. rewrite (length_app P J).
        rewrite (proj2 (Z.leb_gt (Z.of_nat (length P) + Z.of_nat (length f)) _))
          by lia. done. }
    rewrite memcpy_app by done. cbn [mbind option_bind].
    rewrite length_app. simpl length.
    rewrite (to_size_t_small (Z.of_nat (length P) + frame_len f))
      by (unfold frame_len; lia).
    destruct (decide (rest = [])) as [->|Hne].
    { intros _. unfold joined_size. simpl. lia. }
    assert (length rest ≠ 0%nat) by (by destruct rest).
    rewrite (proj2 (Z.ltb_lt _ _)) by lia.
    replace (Z.of_nat (length P) + frame_len f)
      with (Z.of_nat (length (P ++ f))) by (rewrite length_app; unfold frame_len; lia).
    destruct (decide (1 ≤ length (drop (length f) J))%nat) as [Hs|Hs].
    2:{ unfold store_byte. rewrite !length_app.
        rewrite (proj2 (Z.ltb_ge _ _)) by lia. done. }
    rewrite (app_assoc P f), store_byte_app by done.
    cbn [mbind option_bind]. rewrite length_drop in Hs.
    rewrite to_size_t_small by (rewrite length_app; lia).
    replace (Z.of_nat (length (P ++ f)) + 1)
      with (Z.of_nat (length ((P ++ f) ++ [SEPARATOR])))
      by (rewrite !length_app; simpl; lia).
    rewrite drop_drop.
    replace ((P ++ f) ++ SEPARATOR :: drop (length f + 1) J)
      with (((P ++ f) ++ [SEPARATOR]) ++ drop (length f + 1) J)
      by (by rewrite <- !app_assoc).
    replace (S (length done)) with (length (done ++ [f]))
      by (rewrite length_app; simpl; lia).
    replace (length done + S (length rest))%nat
      with (length (done ++ f :: rest)) by (rewrite length_app; simpl; lia).
    intros Hr. apply IH in Hr.
    + rewrite joined_size_cons by done. rewrite length_drop in Hr.
      unfold frame_len. lia.
    + by rewrite <- app_assoc.
    + rewrite !length_app, length_drop. simpl. lia.
Qed.

(** ** [read_file] and the first loop *)

Lemma quiet_refl s : quiet s s.
Proof. done. Qed.

Lemma quiet_trans s1 s2 s3 : quiet s1 s2 → quiet s2 s3 → quiet s1 s3.
Proof. unfold quiet. intros [-> ->] [-> ->]. done. Qed.

Lemma silent_trans s1 s2 s3 : silent s1 s2 → silent s2 s3 → silent s1 s3.
Proof. unfold silent, quiet. intros (-> & -> & ->) (-> & -> & ->). done. Qed.

Lemma read_file_cases E path out_size s :
  match read_file E path out_size s with
  | (Ret (Some (buf, size)), s') =>
      out_size = true ∧ silent s s' ∧ size = frame_len buf ∧
      ∃ f, fopen_rb E path = inl f ∧ size = to_size_t (s_tell f) ∧
           size ≤ Z.of_nat (length (s_data f)) ∧
           buf = take (Z.to_nat size) (s_data f)
  | (Ret None, s') => quiet s s'
  | (Exit _, _) => False
  | (Fault, s') => out_size = false ∧ silent s s'
  end.
Proof.
  unfold read_file. destruct (fopen_rb E path) as [f|e]; [|by step_M].
  step_M. unfold alloc. destruct (alloc_ok _ _ _); simpl; [|done].
  destruct (Z.min _ _ =? _) eqn:Hmin; simpl; [|done].
  apply Z.eqb_eq in Hmin. destruct out_size; [|done].
  assert (0 ≤ to_size_t (s_tell f)).
  { unfold to_size_t. apply Z.mod_pos_bound. done. }
  split; [done|]. split; [done|]. split.
  - unfold frame_len. rewrite length_take. lia.
  - exists f. split; [done|]. split; [done|]. split; [lia|done].
Qed.

Lemma read_frames_outcome E dir n rest i fc fs total s :
  match read_frames E dir n rest i fc fs total s with
  | (Ret _, s') => silent s s' ∧ (rest ≠ [] → is_Some fc ∧ is_Some fs)
  | (Exit c, s') => c = 1 ∧ quiet s s'
  | (Fault, s') => quiet s s' ∧ (fc = None ∨ fs = None)
  end.
Proof.
  revert i fc fs total s. induction rest as [|name rest IH]; intros i fc fs total s.
  { simpl. step_M. done. }
  cbn [read_frames]. unfold mbind, M_bind.
  pose proof (read_file_cases E (snprintf_path dir name) (non_null fs) s) as Hrf.
  destruct (read_file E (snprintf_path dir name) (non_null fs) s)
    as [[[[buf size]|]| |] s1]; try done.
  - destruct Hrf as (Hnn & Hsil & _). destruct fs as [sizes|]; [|done].
    destruct fc as [contents|].
    2:{ unfold fault. split; [apply Hsil|by left]. }
    match goal with |- context [read_frames E dir n rest ?i ?fc ?fs ?t s1] =>
      specialize (IH i fc fs t s1);
      destruct (read_frames E dir n rest i fc fs t s1) as [[r|c|] s2] end.
    + destruct IH as [IH _]. split; [by eapply silent_trans|]. intros _. by split.
    + destruct IH as [-> IH]. split; [done|]. eapply quiet_trans; [apply Hsil|done].
    + destruct IH as [IH [?|?]]; done.
  - destruct fc as [contents|]; unfold fault, exit_main; [done|]. split; [done|by left].
  - destruct Hrf as (Hnn & Hsil). destruct fs; [done|].
    split; [apply Hsil|by right].
Qed.

Lemma to_size_t_idemp a b : to_size_t (to_size_t a + b) = to_size_t (a + b).
Proof. unfold to_size_t. by rewrite Zplus_mod_idemp_l. Qed.

(** What the first loop leaves in the two arrays and in [total_size] when
    it completes: the files' bytes, their lengths, and the size of the
    joined buffer reduced to [size_t]. *)
Lemma read_frames_ret E dir n rest (done : list (list byte)) total s fc fs total' s' :
  n = (length done + length rest)%nat →
  read_frames E dir n rest (length done)
    (Some ((Some <$> done) ++ replicate (length rest) None))
    (Some ((frame_len <$> done) ++ replicate (length rest) 0)) total s
    = (Ret (fc, fs, total'), s') →
  ∃ frames,
    Forall2 (λ name f, frame_of E dir name = Some f) rest frames ∧
    fc = Some (Some <$> (done ++ frames)) ∧
    fs = Some (frame_len <$> (done ++ frames)) ∧
    (rest ≠ [] → total' = to_size_t (total + joined_size frames)) ∧
    (rest = [] → total' = total).
Proof.
  revert done total s. induction rest as [|name rest IH]; intros done total s Hn.
  { simpl. step_M. intros [= <- <- <- <-]. exists [].
    rewrite !app_nil_r. repeat split; done. }
  cbn [read_frames]. unfold mbind, M_bind.
  pose proof (read_file_cases E (snprintf_path dir name) true s) as Hrf.
  cbn [non_null].
  destruct (read_file E (snprintf_path dir name) true s)
    as [[[[buf size]|]| |] s1]; try done.
  destruct Hrf as (_ & _ & Hsize & f & Hopen & Htell & Hlen & Hbuf).
  cbn [fmap option_fmap option_map length replicate].
  rewrite !insert_app_r_alt by (by rewrite length_fmap).
  rewrite !length_fmap, Nat.sub_diag. cbn [insert list_insert].
  replace ((Some <$> done) ++ Some buf :: replicate (length rest) None)
    with ((Some <$> (done ++ [buf])) ++ replicate (length rest) None)
    by (by rewrite fmap_app, <- app_assoc).
  replace ((frame_len <$> done) ++ size :: replicate (length rest) 0)
    with ((frame_len <$> (done ++ [buf])) ++ replicate (length rest) 0)
    by (rewrite fmap_app, <- app_assoc; simpl; by rewrite Hsize).
  replace (S (length done)) with (length (done ++ [buf]))
    by (rewrite length_app; simpl; lia).
  intros Hr. apply IH in Hr. 2:{ rewrite length_app. simpl in *. lia. }
  destruct Hr as (frames & Hall & -> & -> & Hne & He).
  exists (buf :: frames). rewrite <- !app_assoc. simpl.
  split.
  { constructor; [|done]. unfold frame_of. rewrite Hopen. cbn zeta.
    rewrite <- Htell. rewrite (proj2 (Z.leb_le _ _)) by done. by rewrite Hbuf. }
  split; [done|]. split; [done|]. split; [|done]. intros _.
  subst n. cbn [length] in *.
  destruct (decide (rest = [])) as [->|Hrest].
  - apply Forall2_nil_inv_l in Hall as ->. rewrite He by done.
    simpl length. rewrite (proj2 (Z.ltb_ge _ _)) by lia.
    unfold joined_size, frame_len in *. simpl. rewrite Nat.add_0_r.
    f_equal. lia.
  - rewrite Hne by done.
    assert (length rest ≠ 0%nat) by (by destruct rest).
    simpl length. rewrite (proj2 (Z.ltb_lt _ _)) by lia.
    rewrite !to_size_t_idemp.
    assert (frames ≠ []) by (apply Forall2_length in Hall; by destruct frames, rest).
    rewrite (joined_size_cons buf frames) by done. rewrite Hsize.
    rewrite <- Z.add_assoc, to_size_t_idemp. f_equal. lia.
Qed.

Lemma frames_functional E1 E2 dir names frames1 frames2 :
  (∀ path, fopen_rb E1 path = fopen_rb E2 path) →
  Forall2 (λ name f, frame_of E1 dir name = Some f) names frames1 →
  Forall2 (λ name f, frame_of E2 dir name = Some f) names frames2 →
  frames1 = frames2.
Proof.
  intros Hsame H1. revert frames2.
  induction H1 as [|name f1 names frames1 Hf1 _ IH]; intros frames2 H2.
  - by apply Forall2_nil_inv_l in H2.
  - apply Forall2_cons_inv_l in H2 as (f2 & frames2' & Hf2 & H2 & ->).
    unfold frame_of in *. rewrite Hsame in Hf1. rewrite Hf1 in Hf2.
    injection Hf2 as ->. f_equal. by apply IH.
Qed.

(** C1: for a frame set of N >= 1 frames (the bytes of the files named by
    [names]), the first loop computes the size of the joined buffer and
    the second loop turns the freshly allocated buffer, whatever it held,
    into [frame_1 || 0x01 || ... || 0x01 || frame_N]: one separator
    between consecutive frames, none before the first or after the last,
    and a length of the sum of the frame lengths plus N - 1.  The frames
    are in memory together, so their joined size is below [2^64]. *)
Theorem concatenated_buffer E dir names frames s fc fs total s' :
  names ≠ [] →
  Forall2 (λ name f, frame_of E dir name = Some f) names frames →
  joined_size frames < 2 ^ size_t_bits →
  read_frames E dir (length names) names 0
    (Some (replicate (length names) None))
    (Some (replicate (length names) 0)) 0 s = (Ret (fc, fs, total), s') →
  total = Z.of_nat (sum_list (length <$> frames)) + (Z.of_nat (length frames) - 1) ∧
  join_frames (length names) 0 (length names) fc fs
    (junk E <$> seq 0 (Z.to_nat total)) 0 = Some (frames_joined frames) ∧
  Z.of_nat (length (frames_joined frames)) = total.
Proof.
  intros Hne Hframes Hfit Hread.
  apply (read_frames_ret E dir (length names) names []) in Hread; [|done].
  destruct Hread as (frames' & Hall & -> & -> & Htotal & _).
  assert (frames' = frames) as ->.
  { eapply (frames_functional E E); [done|apply Hall|apply Hframes]. }
  pose proof (joined_size_nonneg frames) as Hpos.
  specialize (Htotal Hne). rewrite Z.add_0_l, to_size_t_small in Htotal by lia.
  subst total.
  pose proof (Forall2_length _ _ _ Hall) as Hlen.
  assert (frames ≠ []) as Hfr by (by destruct frames, names).
  split; [|split].
  - unfold joined_size. destruct frames; [done|]. simpl. lia.
  - rewrite Hlen.
    pose proof (join_frames_spec frames [] frames []
      (junk E <$> seq 0 (Z.to_nat (joined_size frames))) eq_refl) as Hjoin.
    rewrite length_fmap, length_seq in Hjoin. cbn [length app] in Hjoin.
    apply Hjoin; lia.
  - apply frames_joined_length.
Qed.

(** ** The stages of [main] *)

Lemma scandir_txt_loop_outcome E fds capacity names s :
  match scandir_txt_loop E fds capacity names s with
  | (Exit _, _) => False
  | (_, s') => silent s s'
  end.
Proof.
  revert capacity names s. induction fds as [|fd fds IH]; intros capacity names s.
  { by step_M. }
  cbn [scandir_txt_loop].
  destruct (negb _); [apply IH|].
  destruct names as [stored|]; [|by step_M].
  unfold mbind, M_bind, mret, M_ret, alloc, fault.
  destruct (Z.of_nat (length stored) >=? capacity); cbv beta iota;
    repeat (match goal with
            | |- context [alloc_ok ?E ?k ?z] => destruct (alloc_ok E k z)
            end; cbn [andb]); try done;
    match goal with
    | |- context [scandir_txt_loop E fds ?c ?n ?s1] =>
        specialize (IH c n s1);
        destruct (scandir_txt_loop E fds c n s1) as [[?|?|] ?]; done
    | |- context [scandir_txt_loop_null_name E fds ?c ?n ?s1] =>
        pose proof (scandir_txt_loop_null_name_outcome E fds c n s1) as Hn;
        destruct (scandir_txt_loop_null_name E fds c n s1) as [[?|?|] ?]; done
    end.
Qed.

Lemma scan_outcome qsort E p dir s :
  match scan qsort E p dir s with
  | (Ret _, s') => silent s s'
  | (Exit _, _) => False
  | (Fault, s') => silent s s' ∧ p = WIN32
  end.
Proof.
  destruct p; [by step_M|]. unfold scan, scandir_txt.
  destruct (FindFirstFileA E (find_pattern dir)) as [[fd rest]|]; [|by step_M].
  unfold mbind, M_bind, mret, M_ret, alloc. cbv beta iota.
  match goal with
  | |- context [scandir_txt_loop E ?f ?c ?n ?s1] =>
      pose proof (scandir_txt_loop_outcome E f c n s1) as Hl;
      destruct (scandir_txt_loop E f c n s1) as [[?|?|] ?]; done
  end.
Qed.

Lemma collect_outcome qsort E p dir s :
  match collect qsort E p dir s with
  | (Ret (n, fc, fs, total), s') =>
      silent s s' ∧
      ∃ names frames s1,
        scan qsort E p dir s = (Ret (inl names), s1) ∧ names ≠ [] ∧
        Forall2 (λ name f, frame_of E dir name = Some f) names frames ∧
        n = length frames ∧ fc = Some (Some <$> frames) ∧
        fs = Some (frame_len <$> frames) ∧
        total = to_size_t (joined_size frames)
  | (Exit c, s') => c = 1 ∧ quiet s s'
  | (Fault, s') => quiet s s'
  end.
Proof.
  unfold collect, mbind, M_bind.
  pose proof (scan_outcome qsort E p dir s) as Hscan.
  destruct (scan qsort E p dir s) as [[[names|e]| |] s1]; try done.
  2:{ step_M. split; [done|]. destruct Hscan as (_ & Hq). apply Hq. }
  2:{ apply Hscan. }
  case_bool_decide as Hn.
  { step_M. split; [done|]. destruct Hscan as (_ & Hq). apply Hq. }
  unfold calloc, mbind, M_bind, mret, M_ret, alloc. cbv beta iota.
  cbn [st_allocs st_stderr st_stdout st_disk].
  match goal with
  | |- context [read_frames E dir ?n names 0 ?fc ?fs 0 ?s2] =>
      pose proof (read_frames_outcome E dir n names 0 fc fs 0 s2) as Hout;
      pose proof (λ fc' fs' t' s', read_frames_ret E dir n names [] 0 s2 fc' fs' t' s' eq_refl)
        as Hret;
      destruct (read_frames E dir n names 0 fc fs 0 s2) as [[[[fc' fs'] total]|c|] s3] eqn:Hrd
  end.
  - assert (names ≠ []) as Hne by (by destruct names).
    destruct Hout as [Hsil [Hfc Hfs]]; [done|].
    destruct (alloc_ok E (st_allocs s1) _); [|by destruct Hfc].
    destruct (alloc_ok E (S (st_allocs s1)) _); [|by destruct Hfs].
    cbn [length app fmap list_fmap] in Hret. apply Hret in Hrd.
    destruct Hrd as (frames & Hall & -> & -> & Htot & _).
    split.
    { eapply silent_trans; [apply Hscan|]. eapply silent_trans; [|apply Hsil]. done. }
    exists names, frames, s1. rewrite Htot by done.
    repeat split; try done. by apply Forall2_length in Hall.
  - destruct Hout as [-> Hq]. split; [done|].
    eapply quiet_trans; [apply Hscan|]. eapply quiet_trans; [|apply Hq]. done.
  - destruct Hout as [Hq _].
    eapply quiet_trans; [apply Hscan|]. eapply quiet_trans; [|apply Hq]. done.
Qed.

Lemma concatenate_outcome E (frames : list (list byte)) s :
  frames ≠ [] →
  match concatenate E (length frames) (Some (Some <$> frames))
          (Some (frame_len <$> frames)) (to_size_t (joined_size frames)) s with
  | (Ret joined, s') =>
      silent s s' ∧ joined_size frames < 2 ^ size_t_bits ∧
      joined = frames_joined frames
  | (Exit c, s') => c = 1 ∧ quiet s s'
  | (Fault, s') => quiet s s'
  end.
Proof.
  intros Hne. unfold concatenate, mbind, M_bind, alloc. cbv beta iota.
  destruct (alloc_ok E _ _); cbn [negb]; [|by step_M].
  set (total := to_size_t (joined_size frames)).
  set (buf := junk E <$> seq 0 (Z.to_nat total)).
  assert (0 ≤ total < 2 ^ size_t_bits) as Htotal
    by (apply Z.mod_pos_bound; done).
  assert (Z.of_nat (length buf) = total) as Hbuf
    by (unfold buf; rewrite length_fmap, length_seq; lia).
  destruct (join_frames _ _ _ _ _ buf 0) as [joined|] eqn:Hjoin; [|by step_M].
  step_M.
  pose proof (join_frames_fits frames [] frames [] buf joined eq_refl) as Hfits.
  cbn [length app] in Hfits. specialize (Hfits ltac:(lia) Hjoin).
  pose proof (joined_size_nonneg frames) as Hpos.
  assert (total ≤ joined_size frames) as Hle.
  { unfold total, to_size_t. apply Z.mod_le; [done|]. done. }
  assert (joined_size frames < 2 ^ size_t_bits) as Hfit by lia.
  split; [done|]. split; [done|].
  pose proof (join_frames_spec frames [] frames [] buf eq_refl) as Hspec.
  cbn [length app] in Hspec. change (Z.of_nat 0) with 0 in Hspec.
  rewrite Hspec in Hjoin; [by injection Hjoin|lia|lia].
Qed.

Lemma compress_outcome compressBound deflate E p joined total s :
  match compress compressBound deflate E p joined total s with
  | (Ret blob, s') =>
      silent s s' ∧ deflateInit2 E deflate_args = Z_OK ∧
      deflate deflate_args Z_FINISH (take (Z.to_nat (to_uInt total)) joined)
        (to_uInt (to_uLong p (compressBound (to_uLong p total))))
        = (Z_STREAM_END, blob)
  | (Exit c, s') =>
      c = 1 ∧ quiet s s' ∧ ∃ line, st_stderr s' = st_stderr s ++ [line]
  | (Fault, _) => False
  end.
Proof.
  unfold compress, mbind, M_bind, alloc. cbv beta iota zeta.
  destruct (alloc_ok E _ _); cbn [negb]; [|by step_M; repeat split; eauto].
  destruct (deflateInit2 E deflate_args =? Z_OK) eqn:Hinit; cbn [negb];
    [|by step_M; repeat split; eauto].
  apply Z.eqb_eq in Hinit.
  destruct (deflate _ _ _ _) as [r produced] eqn:Hdefl.
  destruct (r =? Z_STREAM_END) eqn:Hend; cbn [negb]; [|by step_M; repeat split; eauto].
  apply Z.eqb_eq in Hend. subst r. by step_M.
Qed.

Lemma persist_outcome E out compressed s :
  match persist E out compressed s with
  | (Ret c, s') =>
      c = 0 ∧ st_stderr s' = st_stderr s ∧ st_stdout s' = st_stdout s ∧
      (length compressed ≤ fwrite_count E (length compressed))%nat ∧
      st_disk s' = <[out := take (fclose_flush E (length compressed)) compressed]>
                     (st_disk s)
  | (Exit c, s') =>
      c = 1 ∧ st_stdout s' = st_stdout s ∧
      (∃ line, st_stderr s' = st_stderr s ++ [line]) ∧
      (st_disk s' = st_disk s ∨
       (fwrite_count E (length compressed) < length compressed)%nat ∧
       st_disk s' = <[out := take (fwrite_count E (length compressed)) compressed]>
                      (st_disk s))
  | (Fault, _) => False
  end.
Proof.
  unfold persist. destruct (fopen_wb E out) as [[]|e].
  2:{ step_M. eauto 10. }
  step_M.
  destruct (_ =? _)%nat eqn:Hw; simpl; rewrite insert_insert_eq.
  - apply Nat.eqb_eq in Hw. split; [done|]. split; [done|]. split; [done|].
    split; [lia|]. f_equal.
    destruct (Nat.min_spec (fclose_flush E (length compressed)) (length compressed))
      as [[_ ->]|[? ->]]; [done|].
    by rewrite firstn_all, take_ge.
  - apply Nat.eqb_neq in Hw. split; [done|]. split; [done|]. split; [eauto|].
    right. split; [lia|]. by rewrite Nat.min_l by lia.
Qed.

(** ** Whole runs *)

(** No run writes to standard output. *)
Lemma run_stdout qsort compressBound deflate E p prog args disk :
  st_stdout (run qsort compressBound deflate E p prog args disk).2 = [].
Proof.
  unfold run, main.
  destruct args as [|dir [|out [|]]]; try by step_M.
  unfold mbind, M_bind.
  pose proof (collect_outcome qsort E p dir (initial disk)) as Hc.
  destruct (collect qsort E p dir (initial disk)) as [[[[[n fc] fs] total]|c|] s1].
  - destruct Hc as ((_ & Ho1 & _) & names & frames & s0 & _ & Hne & Hall & -> & -> & -> & ->).
    assert (frames ≠ []) as Hfr by (apply Forall2_length in Hall; by destruct names, frames).
    pose proof (concatenate_outcome E frames s1 Hfr) as Hj.
    destruct (concatenate _ _ _ _ _ s1) as [[joined|c|] s2].
    + destruct Hj as ((_ & Ho2 & _) & _ & ->).
      pose proof (compress_outcome compressBound deflate E p (frames_joined frames)
                    (to_size_t (joined_size frames)) s2) as Hz.
      destruct (compress _ _ _ _ _ _ s2) as [[blob|c|] s3]; [| |done].
      * destruct Hz as ((_ & Ho3 & _) & _).
        pose proof (persist_outcome E out blob s3) as Hp.
        destruct (persist E out blob s3) as [[c|c|] s4]; [| |done]; simpl.
        -- destruct Hp as (_ & _ & -> & _). by rewrite Ho3, Ho2, Ho1.
        -- destruct Hp as (_ & -> & _). by rewrite Ho3, Ho2, Ho1.
      * simpl. destruct Hz as (_ & (-> & _) & _). by rewrite Ho2, Ho1.
    + simpl. destruct Hj as (_ & -> & _). by rewrite Ho1.
    + simpl. destruct Hj as (-> & _). by rewrite Ho1.
  - simpl. by destruct Hc as (_ & -> & _).
  - simpl. by destruct Hc as (-> & _).
Qed.

(** Every way a run with two arguments can end. *)
Lemma run_cases qsort compressBound deflate E p prog dir out disk :
  let '(r, s') := run qsort compressBound deflate E p prog [dir; out] disk in
  match r with
  | Undefined => st_disk s' = disk
  | Exited c =>
      (c = 1 ∧ st_disk s' = disk) ∨
      (∃ names frames blob,
         frame_set qsort E p dir disk names frames ∧
         packed compressBound deflate E p frames blob ∧
         ((c = 0 ∧ (length blob ≤ fwrite_count E (length blob))%nat ∧
           st_disk s' = <[out := take (fclose_flush E (length blob)) blob]> disk ∧
           st_stderr s' = []) ∨
          (c = 1 ∧ (fwrite_count E (length blob) < length blob)%nat ∧
           st_disk s' = <[out := take (fwrite_count E (length blob)) blob]> disk)))
  end.
Proof.
  unfold run, main, mbind, M_bind.
  pose proof (collect_outcome qsort E p dir (initial disk)) as Hc.
  destruct (collect qsort E p dir (initial disk)) as [[[[[n fc] fs] total]|c|] s1].
  - destruct Hc as ((He1 & _ & Hd1) & names & frames & s0 & Hscan & Hne & Hall
                    & -> & -> & -> & ->).
    assert (frames ≠ []) as Hfr by (apply Forall2_length in Hall; by destruct names, frames).
    pose proof (concatenate_outcome E frames s1 Hfr) as Hj.
    destruct (concatenate _ _ _ _ _ s1) as [[joined|c|] s2].
    + destruct Hj as ((He2 & _ & Hd2) & Hfit & ->).
      rewrite (to_size_t_small (joined_size frames))
        by (pose proof (joined_size_nonneg frames); lia).
      pose proof (compress_outcome compressBound deflate E p (frames_joined frames)
                    (joined_size frames) s2) as Hz.
      destruct (compress _ _ _ _ _ _ s2) as [[blob|c|] s3]; [| |done].
      * destruct Hz as ((He3 & _ & Hd3) & Hinit & Hdefl).
        pose proof (persist_outcome E out blob s3) as Hp.
        destruct (persist E out blob s3) as [[c|c|] s4]; [| |done].
        -- destruct Hp as (-> & He4 & _ & Hw4 & Hd4). cbv beta iota zeta. right.
           exists names, frames, blob. split; [by unfold frame_set; eauto|]. split; [done|]. left.
           rewrite Hd4, Hd3, Hd2, Hd1, He4, He3, He2, He1. done.
        -- destruct Hp as (-> & _ & _ & [Hd4|(Hk & Hd4)]); cbv beta iota zeta.
           ++ left. by rewrite Hd4, Hd3, Hd2, Hd1.
           ++ right. exists names, frames, blob. split; [by unfold frame_set; eauto|]. split; [done|].
              right. split; [done|]. split; [done|]. by rewrite Hd4, Hd3, Hd2, Hd1.
      * destruct Hz as (-> & (_ & Hd3) & _). cbv beta iota zeta. left. by rewrite Hd3, Hd2, Hd1.
    + destruct Hj as (-> & _ & Hd2). cbv beta iota zeta. left. by rewrite Hd2, Hd1.
    + destruct Hj as (_ & Hd2). cbv beta iota zeta. by rewrite Hd2, Hd1.
  - destruct Hc as (-> & _ & Hd1). cbv beta iota zeta. by left.
  - by destruct Hc as (_ & Hd1).
Qed.

(** ** No frame files *)

Lemma scandir_txt_loop_dirs E fds capacity names s :
  Forall (λ fd, ¬ is_file fd) fds →
  scandir_txt_loop E fds capacity names s = (Ret (default [] names), s).
Proof.
  induction 1 as [|fd fds Hfd _ IH]; [done|].
  cbn [scandir_txt_loop]. unfold is_file in Hfd.
  apply Z.eqb_neq in Hfd. rewrite Hfd. apply IH.
Qed.

Lemma scan_no_frame qsort E p dir s :
  qsort_contract qsort → lists_no_frame p E dir →
  ∃ s', scan qsort E p dir s = (Ret (inl []), s') ∧ silent s s'.
Proof.
  intros Hq Hno. destruct p; unfold lists_no_frame in Hno.
  - destruct Hno as (entries & Hd & Hall). exists s. split; [|done].
    unfold scan, scandir. rewrite Hd.
    assert (filter (λ e, filter_frames e ≠ 0) entries = []) as ->.
    { clear Hd. induction Hall as [|e l He _ IH]; [done|].
      rewrite filter_cons_False; [apply IH|]. by rewrite filter_frames_spec. }
    destruct (Hq compare_frames []) as [Hp _].
    apply Permutation_nil_r in Hp. by rewrite Hp.
  - destruct Hno as (fd & rest & Hf & Hall).
    unfold scan, scandir_txt. rewrite Hf.
    unfold mbind, M_bind, mret, M_ret, alloc. cbv beta iota.
    eexists. rewrite (scandir_txt_loop_dirs E (fd :: rest) _ _ _ Hall).
    split; [destruct (alloc_ok _ _ _); reflexivity|done].
Qed.

(** When the directory can be listed and no frame file is found, the run
    prints the line [No frame files found in <dir>] on standard error, a
    line that no scan failure prints, exits with status 1 and leaves the
    disk as it was: no output file is created.  A failed scan prints
    [Failed to scan directory <dir>: <error>] instead. *)
Lemma empty_input qsort compressBound deflate E p prog dir out disk :
  qsort_contract qsort →
  lists_no_frame p E dir →
  ∃ s',
    run qsort compressBound deflate E p prog [dir; out] disk = (Exited 1, s') ∧
    st_stderr s' = ["No frame files found in " +:+ dir +:+ nl] ∧
    st_stdout s' = [] ∧ st_disk s' = disk ∧
    (∀ e, "No frame files found in " +:+ dir +:+ nl
          ≠ "Failed to scan directory " +:+ dir +:+ ": " +:+ e +:+ nl) ∧
    (∀ E' e s0,
       scan qsort E' p dir (initial disk) = (Ret (inr e), s0) →
       ∃ s'',
         run qsort compressBound deflate E' p prog [dir; out] disk = (Exited 1, s'') ∧
         st_stderr s'' = ["Failed to scan directory " +:+ dir +:+ ": " +:+ e +:+ nl] ∧
         st_disk s'' = disk).
Proof.
  intros Hq Hno.
  destruct (scan_no_frame qsort E p dir (initial disk) Hq Hno)
    as (s1 & Hscan & He & Ho & Hd).
  unfold run, main, collect, mbind, M_bind. rewrite Hscan.
  cbn [length bool_decide decide_rel]. step_M.
  eexists. split; [done|]. simpl.
  rewrite He, Ho, Hd. repeat split; try done.
  intros E' e s0 Hscan'. unfold run, main, collect, mbind, M_bind. rewrite Hscan'.
  pose proof (scan_outcome qsort E' p dir (initial disk)) as Hs. rewrite Hscan' in Hs.
  destruct Hs as (He' & Ho' & Hd'). step_M.
  eexists. split; [done|]. simpl. by rewrite He', Hd'.
Qed.

(** ** The output file *)

Lemma main_pack qsort compressBound deflate E p prog dir out s :
  main qsort compressBound deflate E p prog [dir; out] s =
  match pack qsort compressBound deflate E p dir s with
  | (Ret blob, s1) => persist E out blob s1
  | (Exit c, s1) => (Exit c, s1)
  | (Fault, s1) => (Fault, s1)
  end.
Proof.
  unfold main, pack, mbind, M_bind.
  destruct (collect qsort E p dir s) as [[[[[n fc] fs] total]|c|] s1]; [|done..].
  destruct (concatenate E n fc fs total s1) as [[joined|c|] s2]; [|done..].
  by destruct (compress compressBound deflate E p joined total s2) as [[blob|c|] s3].
Qed.

Lemma pack_silent qsort compressBound deflate E p dir s blob s1 :
  pack qsort compressBound deflate E p dir s = (Ret blob, s1) → silent s s1.
Proof.
  intros Hpack. unfold pack, mbind, M_bind in Hpack.
  pose proof (collect_outcome qsort E p dir s) as Hc.
  destruct (collect qsort E p dir s) as [[[[[n fc] fs] total]|c|] s2]; [|done..].
  destruct Hc as (Hs1 & names & frames & s0 & _ & Hne & Hall & -> & -> & -> & ->).
  assert (frames ≠ []) as Hfr by (apply Forall2_length in Hall; by destruct names, frames).
  pose proof (concatenate_outcome E frames s2 Hfr) as Hj.
  destruct (concatenate _ _ _ _ _ s2) as [[joined|c|] s3]; [|done..].
  destruct Hj as (Hs2 & _ & ->).
  match type of Hpack with compress ?a ?b ?c ?d ?e ?f ?g = _ =>
    pose proof (compress_outcome a b c d e f g) as Hz end.
  rewrite Hpack in Hz. destruct Hz as (Hs3 & _).
  eapply silent_trans; [apply Hs1|]. eapply silent_trans; [apply Hs2|apply Hs3].
Qed.

(** C10: when the three stages before the write have produced the
    compressed bytes, the output file can be opened, and [fwrite]
    transfers fewer bytes than it was given, the run prints
    [Failed to write compressed data], exits with status 1, and the output file,
    created empty by [fopen], is left holding the bytes that were
    transferred: a proper prefix of the compressed bytes. *)
Theorem short_write qsort compressBound deflate E p prog dir out disk blob s1 :
  pack qsort compressBound deflate E p dir (initial disk) = (Ret blob, s1) →
  fopen_wb E out = inl () →
  (fwrite_count E (length blob) < length blob)%nat →
  ∃ s',
    run qsort compressBound deflate E p prog [dir; out] disk = (Exited 1, s') ∧
    st_disk s' = <[out := take (fwrite_count E (length blob)) blob]>
                   (<[out := []]> disk) ∧
    st_disk s' !! out = Some (take (fwrite_count E (length blob)) blob) ∧
    (length (take (fwrite_count E (length blob)) blob) < length blob)%nat ∧
    st_stderr s' = ["Failed to write compressed data" +:+ nl] ∧
    st_stdout s' = [].
Proof.
  intros Hpack Hopen Hshort.
  destruct (pack_silent _ _ _ _ _ _ _ _ _ Hpack) as (He & Ho & Hd).
  unfold run. rewrite main_pack, Hpack.
  unfold persist. rewrite Hopen. step_M.
  rewrite Nat.min_l by lia.
  rewrite (proj2 (Nat.eqb_neq _ _)) by lia. simpl.
  eexists. split; [done|]. simpl. rewrite He, Ho, Hd.
  split; [done|]. split; [by rewrite lookup_insert_eq|].
  split; [rewrite length_take; lia|]. done.
Qed.

Lemma run_success qsort compressBound deflate E p prog dir out disk s' :
  run qsort compressBound deflate E p prog [dir; out] disk = (Exited 0, s') →
  ∃ names frames blob,
    frame_set qsort E p dir disk names frames ∧
    packed compressBound deflate E p frames blob ∧
    (length blob ≤ fwrite_count E (length blob))%nat ∧
    st_disk s' = <[out := take (fclose_flush E (length blob)) blob]> disk ∧
    st_stderr s' = [].
Proof.
  intros Hrun.
  pose proof (run_cases qsort compressBound deflate E p prog dir out disk) as Hc.
  rewrite Hrun in Hc.
  destruct Hc as [[? _]|(names & frames & blob & Hfs & Hp & [(_ & Hw & Hd & He)|[? _]])];
    try done.
  by exists names, frames, blob.
Qed.

(** With a complete flush the file holds all the bytes. *)
Lemma run_success_flushed qsort compressBound deflate E p prog dir out disk s' :
  flush_completes E →
  run qsort compressBound deflate E p prog [dir; out] disk = (Exited 0, s') →
  ∃ names frames blob,
    frame_set qsort E p dir disk names frames ∧
    packed compressBound deflate E p frames blob ∧
    st_disk s' = <[out := blob]> disk ∧ st_stderr s' = [].
Proof.
  intros Hflush Hrun.
  apply run_success in Hrun as (names & frames & blob & Hfs & Hp & _ & Hd & He).
  exists names, frames, blob. rewrite take_ge in Hd by apply Hflush. done.
Qed.

(** C8: two runs with the same arguments that return 0, on environments
    that list the same entries of the directory (in any order) and hold
    the same bytes in every file, and in which [fclose] flushes to the
    output file every byte it was given, leave the same bytes in the
    output file.  The runs may differ in everything else: the allocator,
    the content of fresh memory, the disk before the run.  The flush is
    a hypothesis because [main] does not look at the result of [fclose]:
    a run returns 0 also when the flush came short. *)
Theorem reproducible_output qsort compressBound deflate p prog dir out
    E1 E2 disk1 disk2 s1 s2 :
  qsort_contract qsort →
  same_listing p E1 E2 dir →
  (∀ path, fopen_rb E1 path = fopen_rb E2 path) →
  flush_completes E1 → flush_completes E2 →
  run qsort compressBound deflate E1 p prog [dir; out] disk1 = (Exited 0, s1) →
  run qsort compressBound deflate E2 p prog [dir; out] disk2 = (Exited 0, s2) →
  ∃ blob, st_disk s1 !! out = Some blob ∧ st_disk s2 !! out = Some blob.
Proof.
  intros Hq Hsame Hfiles Hflush1 Hflush2 Hrun1 Hrun2.
  apply run_success_flushed in Hrun1 as (names1 & frames1 & blob1 & Hfs1 & Hp1 & Hd1 & _);
    [|done].
  apply run_success_flushed in Hrun2 as (names2 & frames2 & blob2 & Hfs2 & Hp2 & Hd2 & _);
    [|done].
  destruct Hfs1 as ((t1 & Hscan1) & _ & Hall1).
  destruct Hfs2 as ((t2 & Hscan2) & _ & Hall2).
  destruct (scan_names_sorted qsort p E1 E2 dir _ _ _ _ _ _ Hq Hsame Hscan1 Hscan2)
    as (<- & _).
  pose proof (frames_functional E1 E2 dir names1 frames1 frames2 Hfiles Hall1 Hall2)
    as <-.
  destruct Hp1 as (_ & _ & Hdefl1). destruct Hp2 as (_ & _ & Hdefl2).
  rewrite Hdefl1 in Hdefl2. injection Hdefl2 as <-.
  exists blob1. rewrite Hd1, Hd2. by rewrite !lookup_insert_eq.
Qed.

(** What the output file decompresses to when the flush was complete.
    [inflate] is zlib's inverse of [deflate] for a given [windowBits];
    [avail_in] has type [uInt], so the stream that is compressed is the
    first [total_size mod 2^32] bytes of the joined buffer. *)
Lemma output_inflates qsort compressBound deflate
    (inflate : Z → list byte → option (list byte)) E p prog dir out disk s' :
  (∀ input avail_out blob,
     deflate deflate_args Z_FINISH input avail_out = (Z_STREAM_END, blob) →
     inflate (windowBits deflate_args) blob = Some input) →
  flush_completes E →
  run qsort compressBound deflate E p prog [dir; out] disk = (Exited 0, s') →
  ∃ names frames blob,
    frame_set qsort E p dir disk names frames ∧
    st_disk s' !! out = Some blob ∧
    inflate (- MAX_WBITS) blob
      = Some (take (Z.to_nat (joined_size frames mod 2 ^ 32)) (frames_joined frames)) ∧
    (joined_size frames < 2 ^ 32 →
     inflate (- MAX_WBITS) blob = Some (frames_joined frames)) ∧
    (2 ^ 32 ≤ joined_size frames →
     inflate (- MAX_WBITS) blob ≠ Some (frames_joined frames)).
Proof.
  intros Hzlib Hflush Hrun.
  apply run_success_flushed in Hrun as (names & frames & blob & Hfs & Hp & Hd & _);
    [|done].
  destruct Hp as (_ & _ & Hdefl). apply Hzlib in Hdefl.
  exists names, frames, blob. split; [done|].
  split; [by rewrite Hd, lookup_insert_eq|].
  change (windowBits deflate_args) with (- MAX_WBITS) in Hdefl.
  split; [done|].
  pose proof (joined_size_nonneg frames) as Hpos.
  pose proof (frames_joined_length frames) as Hlen.
  rewrite Hdefl. unfold to_uInt, uInt_bits. split.
  - intros Hsmall. rewrite Z.mod_small by lia. f_equal.
    apply take_ge. lia.
  - intros Hbig Heq. injection Heq as Heq.
    apply (f_equal length) in Heq. rewrite length_take in Heq.
    pose proof (Z.mod_pos_bound (joined_size frames) (2 ^ 32) ltac:(done)).
    lia.
Qed.

(** ** Runs that succeed

    With an allocator that grants every request, files that can be read,
    a compressor that finishes, an output file that takes all the bytes
    and an [fclose] that flushes them all, the run exits with status 0
    and the output file holds the compressed bytes. *)

Lemma silent_bump s : silent s (bump s).
Proof. done. Qed.

Lemma read_file_forward E dir name f s :
  (∀ k size, alloc_ok E k size = true) →
  frame_of E dir name = Some f →
  read_file E (snprintf_path dir name) true s = (Ret (Some (f, frame_len f)), bump s).
Proof.
  intros Halloc Hf. unfold frame_of in Hf. unfold read_file.
  destruct (fopen_rb E (snprintf_path dir name)) as [st|e]; [|done].
  cbv zeta in Hf. destruct (to_size_t (s_tell st) <=? _) eqn:Hle; [|done].
  apply Z.leb_le in Hle. injection Hf as <-.
  unfold mbind, M_bind, alloc. rewrite Halloc. cbv beta iota zeta. cbn [negb].
  rewrite Z.min_l by done. rewrite Z.eqb_refl. cbn [negb].
  assert (0 ≤ to_size_t (s_tell st)) by (apply Z.mod_pos_bound; done).
  unfold mret, M_ret, frame_len, bump. rewrite length_take.
  do 4 f_equal. lia.
Qed.

Lemma read_frames_forward E dir n names frames (done : list (list byte)) total s :
  (∀ k size, alloc_ok E k size = true) →
  Forall2 (λ name f, frame_of E dir name = Some f) names frames →
  n = (length done + length names)%nat →
  ∃ s',
    read_frames E dir n names (length done)
      (Some ((Some <$> done) ++ replicate (length names) None))
      (Some ((frame_len <$> done) ++ replicate (length names) 0)) total s
    = (Ret (Some (Some <$> (done ++ frames)), Some (frame_len <$> (done ++ frames)),
            if decide (names = []) then total
            else to_size_t (total + joined_size frames)), s') ∧
    silent s s'.
Proof.
  intros Halloc Hall. revert done total s.
  induction Hall as [|name f names frames Hf Hall IH]; intros done total s Hn.
  { exists s. rewrite !app_nil_r. done. }
  cbn [read_frames non_null]. unfold mbind, M_bind.
  rewrite (read_file_forward E dir name f s Halloc Hf).
  cbn [fmap option_fmap option_map length replicate].
  rewrite !insert_app_r_alt by (by rewrite length_fmap).
  rewrite !length_fmap, Nat.sub_diag. cbn [insert list_insert].
  replace ((Some <$> done) ++ Some f :: replicate (length names) None)
    with ((Some <$> (done ++ [f])) ++ replicate (length names) None)
    by (by rewrite fmap_app, <- app_assoc).
  replace ((frame_len <$> done) ++ frame_len f :: replicate (length names) 0)
    with ((frame_len <$> (done ++ [f])) ++ replicate (length names) 0)
    by (by rewrite fmap_app, <- app_assoc).
  replace (S (length done)) with (length (done ++ [f]))
    by (rewrite length_app; simpl; lia).
  match goal with |- context [read_frames E dir n names _ _ _ ?t ?s1] =>
    destruct (IH (done ++ [f]) t s1) as (s' & -> & Hsil) end.
  { rewrite length_app. simpl in *. lia. }
  exists s'. rewrite <- !app_assoc. split.
  2:{ eapply silent_trans; [apply silent_bump|done]. }
  rewrite (decide_False (P := name :: names = [])) by done.
  match goal with |- (Ret (_, _, ?a), _) = (Ret (_, _, ?b), _) =>
    assert (a = b) as ->; [|done] end.
  subst n. cbn [length] in *.
  pose proof (Forall2_length _ _ _ Hall) as Hlen.
  destruct (decide (names = [])) as [->|Hne].
  - destruct frames; [|done]. cbn [length].
    rewrite (proj2 (Z.ltb_ge _ _)) by lia.
    unfold joined_size, frame_len. simpl. rewrite Nat.add_0_r. f_equal. lia.
  - assert (length names ≠ 0%nat) by (by destruct names).
    assert (frames ≠ []) by (by destruct frames, names).
    rewrite (proj2 (Z.ltb_lt _ _)) by lia.
    rewrite !to_size_t_idemp, (joined_size_cons f frames) by done.
    rewrite <- Z.add_assoc, to_size_t_idemp. f_equal. lia.
Qed.

Lemma run_forward qsort compressBound deflate E p prog dir out disk names frames blob :
  (∀ k size, alloc_ok E k size = true) →
  frame_set qsort E p dir disk names frames →
  packed compressBound deflate E p frames blob →
  fopen_wb E out = inl () →
  (length blob ≤ fwrite_count E (length blob))%nat →
  (length blob ≤ fclose_flush E (length blob))%nat →
  ∃ s',
    run qsort compressBound deflate E p prog [dir; out] disk = (Exited 0, s') ∧
    st_disk s' = <[out := blob]> disk ∧ st_stderr s' = [] ∧ st_stdout s' = [].
Proof.
  intros Halloc ((s0 & Hscan) & Hne & Hall) (Hfit & Hinit & Hdefl) Hopen Hwrite Hflush.
  pose proof (scan_outcome qsort E p dir (initial disk)) as Hs0. rewrite Hscan in Hs0.
  pose proof (Forall2_length _ _ _ Hall) as Hlen.
  assert (frames ≠ []) as Hfr by (by destruct names, frames).
  pose proof (joined_size_nonneg frames) as Hpos.
  unfold run, main, collect, mbind, M_bind. rewrite Hscan.
  rewrite bool_decide_eq_false_2 by (by destruct names).
  unfold calloc, mbind, M_bind, mret, M_ret, alloc. rewrite !Halloc.
  cbv beta iota. cbn [st_allocs st_stderr st_stdout st_disk].
  match goal with |- context [read_frames E dir _ names 0 _ _ 0 ?s1] =>
    destruct (read_frames_forward E dir (length names) names frames [] 0 s1
                Halloc Hall eq_refl) as (s2 & Hread & Hs2) end.
  cbn [length app fmap list_fmap] in Hread. rewrite Hread.
  rewrite decide_False by done. rewrite Z.add_0_l, to_size_t_small by lia.
  (* the joined buffer *)
  unfold concatenate, mbind, M_bind, alloc. rewrite Halloc. cbv beta iota. cbn [negb].
  pose proof (join_frames_spec frames [] frames []
    (junk E <$> seq 0 (Z.to_nat (joined_size frames))) eq_refl) as Hjoin.
  rewrite length_fmap, length_seq in Hjoin. cbn [length app] in Hjoin.
  change (Z.of_nat 0) with 0 in Hjoin.
  rewrite Hlen, Hjoin by lia. unfold mret, M_ret.
  (* the compression *)
  unfold compress, mbind, M_bind, alloc. rewrite Halloc. cbv beta iota zeta.
  cbn [negb]. rewrite Hinit, Z.eqb_refl. cbn [negb]. rewrite Hdefl.
  rewrite Z.eqb_refl. cbn [negb]. unfold mret, M_ret.
  (* the output file *)
  unfold persist. rewrite Hopen. step_M.
  rewrite Nat.min_r by lia. rewrite Nat.eqb_refl. simpl.
  eexists. split; [done|]. simpl.
  destruct Hs0 as (He0 & Ho0 & Hd0). destruct Hs2 as (He2 & Ho2 & Hd2).
  simpl in *. rewrite Nat.min_r by lia.
  rewrite Hd2, Hd0, He2, He0, Ho2, Ho0, firstn_all, insert_insert_eq.
  done.
Qed.

(** ** The instances meet the contracts *)

Lemma msort_contract : qsort_contract msort.
Proof.
  intros cmp l. unfold msort. split; [apply merge_sort_Permutation|].
  intros Hopp _. apply Sorted_merge_sort.
  intros a b. specialize (Hopp a b). lia.
Qed.

Lemma Z_of_byte_of_Z z : 0 ≤ z < 256 → Z_of_byte (byte_of_Z z) = z.
Proof.
  intros Hz. unfold Z_of_byte, byte_of_Z.
  destruct (Byte.of_N (Z.to_N z)) as [b|] eqn:Hb.
  - apply Byte.to_of_N in Hb. simpl. rewrite Hb. lia.
  - apply Byte.of_N_None_iff in Hb. lia.
Qed.

(** The stored-block compressor meets the contract that the lemmas on
    decompression assume of zlib. *)
Lemma stored_codec_sound input avail_out blob :
  stored_deflate deflate_args Z_FINISH input avail_out = (Z_STREAM_END, blob) →
  stored_inflate (windowBits deflate_args) blob = Some input.
Proof.
  unfold stored_deflate. cbv zeta.
  destruct (_ && _) eqn:Hc; [|done]. intros [= <-].
  apply andb_prop in Hc as [Hn _]. apply Z.leb_le in Hn.
  unfold stored_inflate. cbv zeta.
  set (n := Z.of_nat (length input)) in *.
  assert (0 ≤ n) by lia.
  pose proof (Z.mod_pos_bound n 256 ltac:(done)).
  pose proof (Z.mod_pos_bound (65535 - n) 256 ltac:(done)).
  pose proof (Z.div_mod n 256 ltac:(done)).
  pose proof (Z.div_mod (65535 - n) 256 ltac:(done)).
  assert (0 ≤ n / 256 < 256)
    by (split; [apply Z.div_pos; lia|apply Z.div_lt_upper_bound; lia]).
  assert (0 ≤ (65535 - n) / 256 < 256)
    by (split; [apply Z.div_pos; lia|apply Z.div_lt_upper_bound; lia]).
  rewrite !Z_of_byte_of_Z by done.
  rewrite (proj2 (Z.eqb_eq (n mod 256 + _ + _) _)) by lia.
  rewrite (proj2 (Z.eqb_eq n _)) by lia. done.
Qed.

(** ** A frame of 4 GiB *)

Lemma truncated_run_at (N : nat) (size : Z) :
  Z.of_nat N = size → size = 2 ^ 32 → truncated_run N size.
Proof.
  intros HN Hsize. unfold truncated_run.
  set (frame := replicate N x00).
  set (E := one_frame_env size frame).
  assert (Z.of_nat (length frame) = size) as Hlen
    by (unfold frame; by rewrite length_replicate).
  assert (frame_set msort E POSIX "frames" ∅ ["a.txt"] [frame]) as Hfs.
  { split; [|split; [done|]].
    - eexists. by vm_compute.
    - constructor; [|constructor]. unfold frame_of, E. cbn [fopen_rb one_frame_env s_tell s_data].
      cbv zeta. rewrite to_size_t_small by (unfold size_t_bits; lia).
      rewrite (proj2 (Z.leb_le _ _)) by lia. f_equal.
      apply take_ge. lia. }
  assert (joined_size [frame] = size) as Hjs.
  { unfold joined_size. cbn [fmap list_fmap sum_list sum_list_with length pred].
    unfold id. lia. }
  assert (packed zlib_compressBound stored_deflate E POSIX [frame]
            [x01; x00; x00; xff; xff]) as Hp.
  { unfold packed. rewrite Hjs. split; [unfold size_t_bits; lia|]. split; [done|].
    rewrite Hsize. by vm_compute. }
  destruct (run_forward msort zlib_compressBound stored_deflate E POSIX "framegen"
              "frames" "out.bin" ∅ ["a.txt"] [frame] _ (λ _ _, eq_refl) Hfs Hp eq_refl
              (le_n _) (le_n _)) as (s' & Hrun & Hd & _).
  exists s', [x01; x00; x00; xff; xff].
  split; [done|]. split; [done|]. split; [done|]. split; [done|].
  split; [by rewrite Hd, lookup_insert_eq|]. by vm_compute.
Qed.

(** C5 at a failing input: a directory whose only frame is a file of
    2^32 zero bytes.  [stream.avail_in] is a [uInt], so the 2^32 bytes of
    the joined buffer become an input of 0 bytes; the run exits with
    status 0 and the output file decompresses to the empty buffer, not to
    the joined buffer.  ([output_inflates] gives the general statement:
    the output decompresses to the first [total_size mod 2^32] bytes.) *)
Theorem four_gib_frame_truncated : truncated_run (Z.to_nat (2 ^ 32)) (2 ^ 32).
Proof. apply truncated_run_at; [apply Z2Nat.id; lia|reflexivity]. Qed.

(** ** The theorems at concrete inputs *)

Lemma concatenated_buffer_witness :
  5 = Z.of_nat (sum_list (length <$> [file_bytes "AA"; file_bytes "BB"]))
      + (Z.of_nat (length [file_bytes "AA"; file_bytes "BB"]) - 1) ∧
  join_frames 2 0 2
    (Some [Some (file_bytes "AA"); Some (file_bytes "BB")]) (Some [2; 2])
    (junk sample <$> seq 0 (Z.to_nat 5)) 0
  = Some (frames_joined [file_bytes "AA"; file_bytes "BB"]) ∧
  Z.of_nat (length (frames_joined [file_bytes "AA"; file_bytes "BB"])) = 5.
Proof.
  refine (concatenated_buffer sample "frames" ["a.txt"; "b.txt"]
            [file_bytes "AA"; file_bytes "BB"] (initial ∅)
            (Some [Some (file_bytes "AA"); Some (file_bytes "BB")]) (Some [2; 2]) 5
            {| st_allocs := 2; st_stderr := []; st_stdout := []; st_disk := ∅ |}
            _ _ _ _).
  - discriminate.
  - repeat constructor.
  - vm_compute. reflexivity.
  - vm_compute. reflexivity.
Defined.

Lemma sample_listing : same_listing POSIX sample sample_reversed "frames".
Proof.
  exists sample_entries, (reverse sample_entries).
  split; [reflexivity|]. split; [reflexivity|]. split.
  - symmetry. apply reverse_Permutation.
  - repeat constructor; discriminate.
Qed.




Lemma empty_input_example :
  ∃ s',
    run msort zlib_compressBound stored_deflate
      (sample_env [entry "a.png"] always (λ n, n)) POSIX "framegen"
      ["frames"; "out.bin"] ∅ = (Exited 1, s') ∧
    st_stderr s' = ["No frame files found in " +:+ "frames" +:+ nl] ∧
    st_stdout s' = [] ∧ st_disk s' = ∅.
Proof.
  destruct (empty_input msort zlib_compressBound stored_deflate
              (sample_env [entry "a.png"] always (λ n, n)) POSIX "framegen"
              "frames" "out.bin" ∅ msort_contract)
    as (s' & Hrun & He & Ho & Hd & _).
  - exists [entry "a.png"]. split; [reflexivity|].
    constructor; [|constructor]. rewrite <- filter_frames_spec. by vm_compute.
  - by exists s'.
Qed.

Lemma reproducible_output_witness :
  ∃ blob,
    st_disk (run msort zlib_compressBound stored_deflate sample POSIX "framegen"
               ["frames"; "out.bin"] ∅).2 !! "out.bin" = Some blob ∧
    st_disk (run msort zlib_compressBound stored_deflate sample_reversed POSIX
               "framegen" ["frames"; "out.bin"] {["old.bin" := [x00]]}).2
      !! "out.bin" = Some blob.
Proof.
  refine (reproducible_output msort zlib_compressBound stored_deflate POSIX
            "framegen" "frames" "out.bin" sample sample_reversed
            ∅ {["old.bin" := [x00]]} _ _ msort_contract sample_listing
            (λ _, eq_refl) (λ n, le_n n) (λ n, le_n n) _ _).
  - vm_compute. reflexivity.
  - vm_compute. reflexivity.
Defined.

(** [fwrite] transfers three bytes of the ten. *)
Lemma short_write_witness :
  ∃ s',
    run msort zlib_compressBound stored_deflate
      (sample_env sample_entries always (λ _, 3%nat)) POSIX "framegen"
      ["frames"; "out.bin"] ∅ = (Exited 1, s') ∧
    st_disk s' !! "out.bin" = Some [x01; x05; x00] ∧
    st_stderr s' = ["Failed to write compressed data" +:+ nl].
Proof.
  destruct (short_write msort zlib_compressBound stored_deflate
              (sample_env sample_entries always (λ _, 3%nat)) POSIX "framegen"
              "frames" "out.bin" ∅
              (x01 :: x05 :: x00 :: xfa :: xff :: file_bytes "AA" ++ x01 :: file_bytes "BB")
              {| st_allocs := 6; st_stderr := []; st_stdout := []; st_disk := ∅ |})
    as (s' & Hrun & _ & Hfile & _ & He & _).
  - vm_compute. reflexivity.
  - reflexivity.
  - vm_compute. lia.
  - by exists s'.
Defined.

(** ** Exit statuses *)

Lemma usage_error qsort compressBound deflate E p prog args disk :
  length args ≠ 2%nat →
  run qsort compressBound deflate E p prog args disk
  = (Exited 1,
     {| st_allocs := 0;
        st_stderr := ["Usage: " +:+ prog +:+ " <frames_dir> <output_file>" +:+ nl];
        st_stdout := []; st_disk := disk |}).
Proof. intros Hlen. by destruct args as [|a [|b [|c rest]]]. Qed.

(** A run that returns from [main] returns 0 or 1, and it returns 0 only
    after it has written the output file (with what [fclose] flushed of
    the compressed buffer). *)
Lemma run_status qsort compressBound deflate E p prog args disk c s' :
  run qsort compressBound deflate E p prog args disk = (Exited c, s') →
  c = 1 ∨ (c = 0 ∧ ∃ dir out blob, args = [dir; out] ∧
                                   st_disk s' = <[out := blob]> disk).
Proof.
  intros Hrun. destruct (decide (length args = 2%nat)) as [Hlen|Hlen].
  - destruct args as [|dir [|out [|]]]; try done.
    pose proof (run_cases qsort compressBound deflate E p prog dir out disk) as Hc.
    rewrite Hrun in Hc.
    destruct Hc as [[-> _]|(names & frames & blob & _ & _ & [(-> & _ & Hd & _)|[-> _]])];
      eauto 10.
  - rewrite usage_error in Hrun by done. injection Hrun as <- _. by left.
Qed.

(** Unless the write itself falls short, a run that does not succeed
    leaves the disk as it was. *)
Lemma failure_keeps_disk qsort compressBound deflate E p prog dir out disk r s' :
  run qsort compressBound deflate E p prog [dir; out] disk = (r, s') →
  r ≠ Exited 0 →
  st_disk s' = disk ∨
  ∃ blob k, (k < length blob)%nat ∧ st_disk s' = <[out := take k blob]> disk.
Proof.
  intros Hrun Hr.
  pose proof (run_cases qsort compressBound deflate E p prog dir out disk) as Hc.
  rewrite Hrun in Hc. destruct r as [c|]; [|by left].
  destruct Hc as [[_ ?]|(names & frames & blob & _ & _ & [(-> & _)|(_ & ? & ?)])];
    [by left|done|right; eauto].
Qed.

(** ** Allocation failures *)

(** C9 at failing inputs.  The requests of a POSIX run are, in order:
    [frame_contents], [frame_sizes], one read buffer per frame, the joined
    buffer, the compression buffer.  A null [frame_contents] or
    [frame_sizes] is stored through (undefined behaviour, no exit
    status); a null read buffer ends the run with status 1 and nothing
    on standard error.  Only the last two are reported. *)
Theorem allocation_failures :
  run msort zlib_compressBound stored_deflate (starved 0) POSIX "framegen"
    ["frames"; "out.bin"] ∅ = ended Undefined 3 [] ∧
  run msort zlib_compressBound stored_deflate (starved 1) POSIX "framegen"
    ["frames"; "out.bin"] ∅ = ended Undefined 3 [] ∧
  run msort zlib_compressBound stored_deflate (starved 2) POSIX "framegen"
    ["frames"; "out.bin"] ∅ = ended (Exited 1) 3 [] ∧
  run msort zlib_compressBound stored_deflate (starved 4) POSIX "framegen"
    ["frames"; "out.bin"] ∅
    = ended (Exited 1) 5 ["Failed to allocate joined buffer" +:+ nl] ∧
  run msort zlib_compressBound stored_deflate (starved 5) POSIX "framegen"
    ["frames"; "out.bin"] ∅
    = ended (Exited 1) 6 ["Failed to allocate compression buffer" +:+ nl].
Proof. repeat split; by vm_compute. Qed.

(** C6 at a failing input: the allocation of [frame_contents] fails, long
    before the writing stage.  The run does not exit with status 1: the
    first store into the array is undefined behaviour.  The disk is as it
    was. *)
Theorem early_failure_undefined :
  ∀ disk,
    (run msort zlib_compressBound stored_deflate (starved 0) POSIX "framegen"
       ["frames"; "out.bin"] disk).1 = Undefined ∧
    st_disk (run msort zlib_compressBound stored_deflate (starved 0) POSIX
               "framegen" ["frames"; "out.bin"] disk).2 = disk.
Proof.
  intros disk.
  assert ((run msort zlib_compressBound stored_deflate (starved 0) POSIX "framegen"
             ["frames"; "out.bin"] disk).1 = Undefined) as Hr by (by vm_compute).
  split; [done|].
  pose proof (run_cases msort zlib_compressBound stored_deflate (starved 0) POSIX
                "framegen" "frames" "out.bin" disk) as Hc.
  destruct (run _ _ _ _ _ _ _ _) as [r s']. simpl in *. by subst r.
Qed.

(** C7 at a failing input: the allocation of [frame_sizes] fails.  The
    frame is read, and [read_file] stores its size through the null
    pointer: undefined behaviour, so the run ends with no exit status
    where every failure is to end with status 1.  Nothing is printed. *)
Theorem failure_without_status :
  run msort zlib_compressBound stored_deflate
    (sample_env [entry "a.txt"] (all_but 1) (λ n, n)) POSIX "framegen"
    ["frames"; "out.bin"] ∅ = ended Undefined 3 [].
Proof. by vm_compute. Qed.

(** ** An empty directory on the two platforms *)

(** C4 at a failing input: the directory [frames] holds [a.png] only.  On
    POSIX the run prints [No frame files found in frames].  On Win32
    [FindFirstFileA] finds no file for the pattern and returns no handle,
    [scandir_txt] returns -1, and the run prints the line of a failed
    scan: the empty input is not told apart from a directory that cannot
    be read.  Both runs exit with status 1 and write no file. *)
Theorem empty_input_by_platform :
  run msort zlib_compressBound stored_deflate
    (sample_env [entry "a.png"] always (λ n, n)) POSIX "framegen"
    ["frames"; "out.bin"] ∅
  = ended (Exited 1) 0 ["No frame files found in frames" +:+ nl] ∧
  run msort zlib_compressBound stored_deflate
    (sample_env [entry "a.png"] always (λ n, n)) WIN32 "framegen"
    ["frames"; "out.bin"] ∅
  = ended (Exited 1) 0 ["Failed to scan directory frames: No error" +:+ nl].
Proof. split; by vm_compute. Qed.

(** ** Remarks *)

(** The stream is set up for raw DEFLATE: a negative [windowBits] of the
    largest window, the default level and strategy, memory level 8. *)
Lemma deflate_parameters :
  level deflate_args = -1 ∧ method deflate_args = 8 ∧
  windowBits deflate_args = -15 ∧ memLevel deflate_args = 8 ∧
  strategy deflate_args = 0.
Proof. done. Qed.

(** Win32: when [FindFirstFileA] returns no handle, whatever the reason,
    the run reports a failed scan. *)
Lemma win32_no_handle qsort compressBound deflate E prog dir out disk :
  FindFirstFileA E (find_pattern dir) = None →
  run qsort compressBound deflate E WIN32 prog [dir; out] disk
  = (Exited 1,
     {| st_allocs := 0;
        st_stderr := ["Failed to scan directory " +:+ dir +:+ ": "
                        +:+ win_errno E +:+ nl];
        st_stdout := []; st_disk := disk |}).
Proof.
  intros Hf. unfold run, main, collect, scan, scandir_txt. rewrite Hf. by step_M.
Qed.

(** POSIX: a subdirectory whose name ends in [.txt] passes the filter. *)
Lemma filter_frames_ignores_type name :
  filter_frames {| d_name := name; d_type := DT_DIR |}
  = filter_frames {| d_name := name; d_type := DT_REG |}.
Proof. done. Qed.

(** * Further properties of the code *)

(** ** Names and their order *)

(** X1: the exchange sort of [scandir_txt] (lines 42-46) returns, for
    every array of names, a rearrangement of the array (no name is lost
    or repeated, equal names included) that is in ascending [strcmp]
    order; an array that is already in order comes back unchanged. *)
Theorem exchange_sort_sorts (names : list string) :
  Forall cstring names →
  sort_names names ≡ₚ names ∧
  length (sort_names names) = length names ∧
  StronglySorted name_le (sort_names names) ∧
  (StronglySorted name_le names → sort_names names = names).
Proof.
  intros Hc. destruct (sort_names_sorted names Hc) as [Hp Hs].
  split; [done|]. split; [by rewrite Hp|]. split; [done|].
  intros Hs'. apply sorted_names_unique; try done. by rewrite Hp.
Qed.

(** X2: [compare_frames] is a comparison that [scandir] can sort with: it
    is antisymmetric, it returns 0 exactly for entries of the same name,
    and it is transitive. *)
Theorem compare_frames_order (a b c : dirent) :
  cstring (d_name a) → cstring (d_name b) → cstring (d_name c) →
  compare_frames b a = - compare_frames a b ∧
  (compare_frames a b = 0 ↔ d_name a = d_name b) ∧
  (compare_frames a b ≤ 0 → compare_frames b c ≤ 0 → compare_frames a c ≤ 0).
Proof.
  intros Ha Hb Hc. unfold compare_frames. split; [apply strcmp_opp|]. split.
  - split; [by apply strcmp_eq|]. intros ->. apply strcmp_refl.
  - by apply strcmp_trans.
Qed.

(** X3: the two builds agree.  When the files that the Win32 search
    reports for a directory carry the names that [filter_frames] selects
    on POSIX, the Win32 scan ([scandir_txt] with its own sort) returns the
    list of names that the POSIX scan ([scandir] with [compare_frames])
    returns, in the same order. *)
Theorem platforms_agree qsort E dir entries fd rest s names s' :
  qsort_contract qsort →
  dir_entries E dir = inl entries →
  FindFirstFileA E (find_pattern dir) = Some (fd, rest) →
  Forall cstring (d_name <$> entries) →
  cFileName <$> filter is_file (fd :: rest)
    ≡ₚ d_name <$> filter (λ e, filter_frames e ≠ 0) entries →
  scan qsort E WIN32 dir s = (Ret (inl names), s') →
  scan qsort E POSIX dir s = (Ret (inl names), s).
Proof.
  intros Hq Hd Hf Hc Hperm Hw.
  destruct (posix_scan_names qsort E dir entries Hq Hd Hc)
    as (n1 & He1 & -> & Hp1 & Hcs1 & Hs1).
  unfold scan in *. rewrite He1.
  unfold mbind, M_bind, mret, M_ret in *.
  destruct (scandir_txt E dir s) as [[[n2|]| |] t] eqn:Hs2; try done.
  injection Hw as <- <-.
  unfold scandir_txt in Hs2. rewrite Hf in Hs2.
  unfold mbind, M_bind, mret, M_ret, alloc in Hs2. cbv beta iota in Hs2.
  destruct (scandir_txt_loop _ _ _ _ _) as [[r| |] s2] eqn:Hloop; try done.
  injection Hs2 as <- <-. apply scandir_txt_loop_names in Hloop.
  assert (r = cFileName <$> filter is_file (fd :: rest)) as ->.
  { rewrite Hloop. by destruct (alloc_ok _ _ _). }
  assert (Forall cstring (cFileName <$> filter is_file (fd :: rest))) as Hcw.
  { rewrite Hperm, <- Hp1. done. }
  destruct (sort_names_sorted _ Hcw) as [Hp2 Hs2].
  do 3 f_equal. apply sorted_names_unique; try done.
  - by rewrite Hp2.
  - by rewrite Hp1, Hp2, Hperm.
Qed.

(** ** The paths of the frames *)

Lemma str_take_all k s : (String.length s ≤ k)%nat → str_take k s = s.
Proof.
  revert s. induction k as [|k IH]; intros [|c r]; simpl; try done; [lia|].
  intros H. f_equal. apply IH. lia.
Qed.

Lemma str_take_length k s : String.length (str_take k s) = (k `min` String.length s)%nat.
Proof. revert s. induction k as [|k IH]; intros [|c r]; simpl; auto. Qed.

Lemma str_take_app_le k s t :
  (k ≤ String.length s)%nat → str_take k (s +:+ t) = str_take k s.
Proof.
  revert s. induction k as [|k IH]; intros [|c r]; simpl; try done; [lia|].
  intros H. change (String c (str_take k (r +:+ t)) = String c (str_take k r)).
  f_equal. apply IH. lia.
Qed.

Lemma str_app_inv_head s t1 t2 : s +:+ t1 = s +:+ t2 → t1 = t2.
Proof.
  induction s as [|c r IH]; [done|].
  change (String c (r +:+ t1) = String c (r +:+ t2) → t1 = t2).
  intros [= H]. by apply IH.
Qed.

Lemma str_app_assoc s t u : (s +:+ t) +:+ u = s +:+ (t +:+ u).
Proof.
  induction s as [|c r IH]; [done|].
  change (String c ((r +:+ t) +:+ u) = String c (r +:+ (t +:+ u))). by rewrite IH.
Qed.

(** X4: when [dir/name] fits the path buffer of 4096 bytes with its
    terminator, [snprintf] (lines 120-125) produces exactly [dir/name],
    and two names of the directory that fit are read from two different
    paths. *)
Theorem frame_paths_distinct dir name1 name2 :
  (String.length dir + 1 + String.length name1 < PATH_BUF)%nat →
  (String.length dir + 1 + String.length name2 < PATH_BUF)%nat →
  snprintf_path dir name1 = dir +:+ "/" +:+ name1 ∧
  (snprintf_path dir name1 = snprintf_path dir name2 → name1 = name2).
Proof.
  unfold snprintf_path, PATH_BUF. intros H1 H2.
  assert (∀ name, (String.length dir + 1 + String.length name < 4096)%nat →
            str_take (4096 - 1) (dir +:+ "/" +:+ name) = dir +:+ "/" +:+ name) as Hfit.
  { intros name H. apply str_take_all. rewrite !str_length_app. simpl. lia. }
  rewrite !Hfit by done. split; [done|].
  intros Heq. apply str_app_inv_head in Heq. by injection Heq.
Qed.

(** X5: the result of [snprintf] is not looked at.  When [dir/name] does
    not fit the buffer, the path that is opened is its first 4095 bytes,
    not [dir/name]; and when the directory name alone fills the buffer,
    every frame is read from one and the same path. *)
Theorem long_paths_truncated dir name :
  (PATH_BUF ≤ String.length dir + 1 + String.length name)%nat →
  String.length (snprintf_path dir name) = (PATH_BUF - 1)%nat ∧
  snprintf_path dir name ≠ dir +:+ "/" +:+ name ∧
  (∀ name', (PATH_BUF - 1 ≤ String.length dir + 1)%nat →
            snprintf_path dir name' = snprintf_path dir name).
Proof.
  unfold snprintf_path, PATH_BUF. intros Hlong.
  assert (String.length (str_take (4096 - 1) (dir +:+ "/" +:+ name)) = (4096 - 1)%nat)
    as Hlen.
  { rewrite str_take_length, !str_length_app. cbn [String.length]. lia. }
  split; [done|]. split.
  - intros Heq. rewrite Heq in Hlen. rewrite !str_length_app in Hlen.
    cbn [String.length] in Hlen. lia.
  - intros name' Hdir.
    rewrite <- (str_app_assoc dir "/" name), <- (str_app_assoc dir "/" name').
    rewrite (str_take_app_le _ (dir +:+ "/") name), (str_take_app_le _ (dir +:+ "/") name');
      [done|rewrite str_length_app; cbn [String.length]; lia..].
Qed.

(** ** The array of names on Win32 *)

Lemma scandir_txt_loop_null_name_in_bounds E fds capacity count s :
  0 < capacity → 0 ≤ count ≤ capacity →
  count + Z.of_nat (length fds) ≤ 2 ^ 30 →
  scandir_txt_loop_null_name_bounds E fds capacity count s
  = scandir_txt_loop_null_name E fds capacity count s.
Proof.
  revert capacity count s.
  induction fds as [|fd fds IH]; intros capacity count s Hc Hn Hmax.
  { done. }
  cbn [scandir_txt_loop_null_name_bounds scandir_txt_loop_null_name length] in *.
  destruct (negb _); [apply IH; [done|done|lia]|].
  unfold mbind, M_bind, mret, M_ret, alloc, fault.
  destruct (count >=? capacity) eqn:Hfull.
  - rewrite Z.geb_leb in Hfull. apply Z.leb_le in Hfull.
    assert (capacity = count) as -> by lia.
    unfold INT_MAX. rewrite (proj2 (Z.leb_le _ _)) by lia.
    cbv beta iota.
    rewrite (proj2 (Z.ltb_lt count _)) by lia.
    rewrite andb_true_r.
    repeat (match goal with
            | |- context [alloc_ok ?E ?k ?z] => destruct (alloc_ok E k z)
            end; cbn [andb]); try done; apply IH; lia.
  - rewrite Z.geb_leb in Hfull. apply Z.leb_gt in Hfull.
    cbv beta iota.
    rewrite (proj2 (Z.ltb_lt count _)) by lia.
    cbn [andb]. apply IH; lia.
Qed.

Lemma scandir_txt_loop_in_bounds E fds capacity names s :
  0 < capacity →
  Z.of_nat (length (default [] names)) ≤ capacity →
  Z.of_nat (length (default [] names)) + Z.of_nat (length fds) ≤ 2 ^ 30 →
  scandir_txt_loop_bounds E fds capacity names s = scandir_txt_loop E fds capacity names s.
Proof.
  revert capacity names s. induction fds as [|fd fds IH]; intros capacity names s Hc Hn Hmax.
  { done. }
  cbn [scandir_txt_loop_bounds scandir_txt_loop length] in *.
  destruct (negb _); [apply IH; [done|done|lia]|].
  destruct names as [stored|]; [|done].
  cbn [from_option id] in Hn, Hmax.
  unfold mbind, M_bind, mret, M_ret, alloc, fault.
  destruct (Z.of_nat (length stored) >=? capacity) eqn:Hfull.
  - rewrite Z.geb_leb in Hfull. apply Z.leb_le in Hfull.
    assert (capacity = Z.of_nat (length stored)) as -> by lia.
    unfold INT_MAX. rewrite (proj2 (Z.leb_le _ _)) by lia.
    cbv beta iota.
    rewrite (proj2 (Z.ltb_lt (Z.of_nat (length stored)) _)) by lia.
    rewrite !andb_true_r.
    repeat (match goal with
            | |- context [alloc_ok ?E ?k ?z] => destruct (alloc_ok E k z)
            end; cbn [andb]); try done.
    + apply IH; cbn [from_option id]; rewrite ?length_app; cbn [length]; lia.
    + apply scandir_txt_loop_null_name_in_bounds; lia.
  - rewrite Z.geb_leb in Hfull. apply Z.leb_gt in Hfull.
    cbv beta iota.
    rewrite (proj2 (Z.ltb_lt (Z.of_nat (length stored)) _)) by lia.
    rewrite !andb_true_r.
    repeat (match goal with
            | |- context [alloc_ok ?E ?k ?z] => destruct (alloc_ok E k z)
            end; cbn [andb]); try done.
    + apply IH; cbn [from_option id]; rewrite ?length_app; cbn [length]; lia.
    + apply scandir_txt_loop_null_name_in_bounds; lia.
Qed.

(** X6: the array of names never overflows.  For a search that reports
    up to 2^30 entries, the loop of [scandir_txt] with the bounds of the
    array and of [int] checked at every step runs exactly as the loop
    without the checks: every store [names[count++]] falls inside the
    [capacity] slots that were allocated, and [capacity *= 2] stays
    below [INT_MAX].  [live] tells whether the first [malloc] succeeded. *)
Theorem names_array_in_bounds E fds (live : bool) s :
  Z.of_nat (length fds) ≤ 2 ^ 30 →
  scandir_txt_loop_bounds E fds 64 (if live then Some [] else None) s
  = scandir_txt_loop E fds 64 (if live then Some [] else None) s.
Proof.
  intros Hlen. apply scandir_txt_loop_in_bounds; [done|by destruct live|].
  destruct live; simpl; lia.
Qed.

Lemma scandir_txt_loop_null E fds capacity s :
  Exists is_file fds →
  ∃ s', scandir_txt_loop E fds capacity None s = (Fault, s') ∧ silent s s'.
Proof.
  induction 1 as [fd fds Hfd|fd fds _ IH]; cbn [scandir_txt_loop].
  - unfold is_file in Hfd. rewrite Hfd. cbn [Z.eqb negb].
    eexists. unfold mbind, M_bind, alloc, fault. split; [reflexivity|done].
  - destruct (negb _); [done|].
    eexists. unfold mbind, M_bind, alloc, fault. split; [reflexivity|done].
Qed.

(** X7: the [malloc] of the array of names (line 29) is not checked.
    When it returns NULL and the search has found a file, the first name
    is stored through the null pointer: the Win32 run has undefined
    behaviour, with no exit status, nothing printed and nothing written. *)
Theorem win32_names_unchecked qsort compressBound deflate E prog dir out disk fd rest :
  FindFirstFileA E (find_pattern dir) = Some (fd, rest) →
  Exists is_file (fd :: rest) →
  alloc_ok E 0 (64 * 8) = false →
  ∃ s',
    run qsort compressBound deflate E WIN32 prog [dir; out] disk = (Undefined, s') ∧
    st_stderr s' = [] ∧ st_stdout s' = [] ∧ st_disk s' = disk.
Proof.
  intros Hf Hfile Halloc.
  unfold run, main, collect, scan, scandir_txt. rewrite Hf.
  unfold mbind, M_bind, alloc. cbv beta iota. cbn [initial st_allocs].
  rewrite Halloc.
  match goal with |- context [scandir_txt_loop E _ ?c None ?s] =>
    destruct (scandir_txt_loop_null E (fd :: rest) c s Hfile) as (s' & -> & He & Ho & Hd) end.
  eexists. split; [done|]. done.
Qed.



(** ** [read_file] *)

(** X9: what [read_file] returns when it returns a buffer.  The file was
    opened and the one allocation it asks for succeeded; the size stored
    through [out_size] is what [ftell] reported and is the length of the
    buffer; the buffer holds the first bytes of the file, as many as that
    size; nothing was printed. *)
Theorem read_file_result E path s buf size s' :
  read_file E path true s = (Ret (Some (buf, size)), s') →
  ∃ f,
    fopen_rb E path = inl f ∧
    alloc_ok E (st_allocs s) (to_size_t (s_tell f)) = true ∧
    size = to_size_t (s_tell f) ∧
    size = Z.of_nat (length buf) ∧
    buf = take (length buf) (s_data f) ∧
    s' = bump s.
Proof.
  intros Hr.
  pose proof (read_file_cases E path true s) as Hc. rewrite Hr in Hc.
  destruct Hc as (_ & _ & Hsize & f & Hopen & Htell & Hlen & Hbuf).
  exists f. split; [done|].
  unfold read_file in Hr. rewrite Hopen in Hr.
  unfold mbind, M_bind, alloc in Hr. cbv beta iota zeta in Hr.
  destruct (alloc_ok E _ _); cbn [negb] in Hr; [|by step_M].
  split; [done|]. split; [done|]. split; [done|].
  unfold frame_len in Hsize. split.
  { rewrite Hbuf at 1. f_equal. lia. }
  destruct (Z.min _ _ =? _); cbn [negb] in Hr; [|by step_M].
  by injection Hr as _ _ <-.
Qed.

(** X10: the result of [ftell] is not checked, and a failed [ftell] is
    caught all the same.  When [ftell] returns -1, [read_file] asks for
    [SIZE_MAX] bytes; whether that allocation fails or [fread] then
    delivers fewer bytes, [read_file] returns NULL, having printed
    nothing or the line [Failed to read <path>]. *)
Theorem ftell_failure_caught E path out_size f s :
  fopen_rb E path = inl f →
  s_tell f = -1 →
  Z.of_nat (length (s_data f)) < 2 ^ size_t_bits - 1 →
  ∃ s',
    read_file E path out_size s = (Ret None, s') ∧
    (st_stderr s' = st_stderr s ∨
     st_stderr s' = st_stderr s ++ ["Failed to read " +:+ path +:+ nl]) ∧
    quiet s s'.
Proof.
  intros Hopen Htell Hlen. unfold read_file. rewrite Hopen, Htell.
  change (to_size_t (-1)) with (2 ^ size_t_bits - 1).
  unfold mbind, M_bind, alloc. cbv beta iota zeta.
  destruct (alloc_ok E _ _); cbn [negb].
  - rewrite Z.min_r by lia. rewrite (proj2 (Z.eqb_neq _ _)) by lia. cbn [negb].
    step_M. eexists. split; [done|]. split; [by right|done].
  - step_M. eexists. split; [done|]. split; [by left|done].
Qed.

(** ** Failures of a run and their reports *)

Lemma collect_forward qsort E p dir disk names frames :
  (∀ k size, alloc_ok E k size = true) →
  frame_set qsort E p dir disk names frames →
  ∃ s1,
    collect qsort E p dir (initial disk)
    = (Ret (length frames, Some (Some <$> frames), Some (frame_len <$> frames),
            to_size_t (joined_size frames)), s1) ∧
    silent (initial disk) s1.
Proof.
  intros Halloc ((s0 & Hscan) & Hne & Hall).
  pose proof (scan_outcome qsort E p dir (initial disk)) as Hs0. rewrite Hscan in Hs0.
  pose proof (Forall2_length _ _ _ Hall) as Hlen.
  unfold collect, mbind, M_bind. rewrite Hscan.
  rewrite bool_decide_eq_false_2 by (by destruct names).
  unfold calloc, mbind, M_bind, mret, M_ret, alloc. rewrite !Halloc.
  cbv beta iota. cbn [st_allocs st_stderr st_stdout st_disk].
  match goal with |- context [read_frames E dir _ names 0 _ _ 0 ?s1] =>
    destruct (read_frames_forward E dir (length names) names frames [] 0 s1
                Halloc Hall eq_refl) as (s2 & Hread & Hs2) end.
  cbn [length app fmap list_fmap] in Hread. rewrite Hread.
  rewrite decide_False by done. rewrite Z.add_0_l, Hlen.
  eexists. split; [done|].
  eapply silent_trans; [apply Hs0|]. eapply silent_trans; [|apply Hs2]. done.
Qed.

Lemma concatenate_ret E frames s joined s' :
  frames ≠ [] →
  concatenate E (length frames) (Some (Some <$> frames)) (Some (frame_len <$> frames))
    (to_size_t (joined_size frames)) s = (Ret joined, s') →
  joined = frames_joined frames ∧ joined_size frames < 2 ^ size_t_bits ∧
  alloc_ok E (st_allocs s) (to_size_t (joined_size frames)) = true ∧ s' = bump s.
Proof.
  intros Hne Hc.
  pose proof (concatenate_outcome E frames s Hne) as Ho. rewrite Hc in Ho.
  destruct Ho as (_ & Hfit & ->). split; [done|]. split; [done|].
  unfold concatenate, mbind, M_bind, alloc in Hc. cbv beta iota in Hc.
  destruct (alloc_ok E _ _); cbn [negb] in Hc; [|by step_M].
  split; [done|]. destruct (join_frames _ _ _ _ _ _ _); [|done].
  by injection Hc as _ <-.
Qed.

Lemma concatenate_at E frames s :
  frames ≠ [] → joined_size frames < 2 ^ size_t_bits →
  alloc_ok E (st_allocs s) (to_size_t (joined_size frames)) = true →
  concatenate E (length frames) (Some (Some <$> frames)) (Some (frame_len <$> frames))
    (to_size_t (joined_size frames)) s = (Ret (frames_joined frames), bump s).
Proof.
  intros Hne Hfit Halloc. pose proof (joined_size_nonneg frames) as Hpos.
  unfold concatenate, mbind, M_bind, alloc. rewrite Halloc. cbv beta iota. cbn [negb].
  rewrite to_size_t_small by lia.
  pose proof (join_frames_spec frames [] frames []
    (junk E <$> seq 0 (Z.to_nat (joined_size frames))) eq_refl) as Hjoin.
  rewrite length_fmap, length_seq in Hjoin. cbn [length app] in Hjoin.
  change (Z.of_nat 0) with 0 in Hjoin.
  rewrite Hjoin by lia. done.
Qed.

(** The run up to the compression, when everything before it succeeds. *)
Lemma main_forward qsort compressBound deflate E p prog dir out disk names frames :
  (∀ k size, alloc_ok E k size = true) →
  frame_set qsort E p dir disk names frames →
  joined_size frames < 2 ^ size_t_bits →
  ∃ s2,
    silent (initial disk) s2 ∧
    main qsort compressBound deflate E p prog [dir; out] (initial disk)
    = (compressed ← compress compressBound deflate E p (frames_joined frames)
                       (joined_size frames);
       persist E out compressed) s2.
Proof.
  intros Halloc Hfs Hfit.
  destruct (collect_forward qsort E p dir disk names frames Halloc Hfs) as (s1 & Hc & Hs1).
  assert (frames ≠ []) as Hne.
  { destruct Hfs as (_ & Hn & Hall). apply Forall2_length in Hall. by destruct names, frames. }
  pose proof (concatenate_at E frames s1 Hne Hfit (Halloc _ _)) as Hj.
  exists (bump s1). split.
  { eapply silent_trans; [apply Hs1|apply silent_bump]. }
  pose proof (joined_size_nonneg frames) as Hpos.
  unfold main. unfold mbind at 1 2. unfold M_bind at 1 2. rewrite Hc.
  cbv beta iota. rewrite Hj. cbv beta iota.
  by rewrite to_size_t_small by lia.
Qed.

(** X11: with any number of arguments other than two, the run prints the
    usage line with [argv[0]] on standard error and returns 1; it asks
    nothing of the file system, the allocator or zlib, and it is the same
    on both builds. *)
Theorem wrong_arity qsort compressBound deflate E p prog args disk :
  length args ≠ 2%nat →
  run qsort compressBound deflate E p prog args disk
  = (Exited 1,
     {| st_allocs := 0;
        st_stderr := ["Usage: " +:+ prog +:+ " <frames_dir> <output_file>" +:+ nl];
        st_stdout := []; st_disk := disk |}).
Proof. apply usage_error. Qed.

(** X12: when the scan of the directory fails, the run prints
    [Failed to scan directory <dir>: <error>] on standard error and
    returns 1, before any allocation and with the disk as it was. *)
Theorem scan_failure_reported qsort compressBound deflate E p prog dir out disk e :
  scan_fails p E dir e →
  run qsort compressBound deflate E p prog [dir; out] disk
  = (Exited 1,
     {| st_allocs := 0;
        st_stderr := ["Failed to scan directory " +:+ dir +:+ ": " +:+ e +:+ nl];
        st_stdout := []; st_disk := disk |}).
Proof.
  destruct p; simpl.
  - intros Hd. unfold run, main, collect, scan, scandir. rewrite Hd. by step_M.
  - intros [Hf ->]. by apply win32_no_handle.
Qed.

(** X13: when the directory can be listed and holds no frame file (on
    Win32: the search found entries, all of them directories), the run
    prints [No frame files found in <dir>] on standard error, returns 1
    and leaves the disk as it was. *)
Theorem no_frames_reported qsort compressBound deflate E p prog dir out disk :
  qsort_contract qsort →
  lists_no_frame p E dir →
  ∃ s',
    run qsort compressBound deflate E p prog [dir; out] disk = (Exited 1, s') ∧
    st_stderr s' = ["No frame files found in " +:+ dir +:+ nl] ∧
    st_stdout s' = [] ∧ st_disk s' = disk.
Proof.
  intros Hq Hno.
  destruct (empty_input qsort compressBound deflate E p prog dir out disk Hq Hno)
    as (s' & ? & ? & ? & ? & _).
  by exists s'.
Qed.

Lemma read_file_unreadable E dir name s :
  (∀ k size, alloc_ok E k size = true) →
  frame_of E dir name = None →
  ∃ s',
    read_file E (snprintf_path dir name) true s = (Ret None, s') ∧
    st_stderr s' = st_stderr s ++ [read_complaint E (snprintf_path dir name)] ∧
    quiet s s'.
Proof.
  intros Halloc Hf. unfold frame_of in Hf. unfold read_file, read_complaint.
  destruct (fopen_rb E (snprintf_path dir name)) as [st|e].
  2:{ step_M. eexists. split; [done|]. done. }
  cbv zeta in Hf. destruct (to_size_t (s_tell st) <=? _) eqn:Hle; [done|].
  apply Z.leb_gt in Hle.
  unfold mbind, M_bind, alloc. rewrite Halloc. cbv beta iota zeta. cbn [negb].
  rewrite Z.min_r by lia.
  rewrite (proj2 (Z.eqb_neq _ _)) by lia. cbn [negb].
  step_M. eexists. split; [done|]. done.
Qed.

Lemma read_frames_stops E dir n pre name post frames (done : list (list byte)) total s :
  (∀ k size, alloc_ok E k size = true) →
  Forall2 (λ name f, frame_of E dir name = Some f) pre frames →
  frame_of E dir name = None →
  ∃ s',
    read_frames E dir n (pre ++ name :: post) (length done)
      (Some ((Some <$> done) ++ replicate (length (pre ++ name :: post)) None))
      (Some ((frame_len <$> done) ++ replicate (length (pre ++ name :: post)) 0)) total s
    = (Exit 1, s') ∧
    st_stderr s' = st_stderr s ++ [read_complaint E (snprintf_path dir name)] ∧
    quiet s s'.
Proof.
  intros Halloc Hall Hbad. revert done total s.
  induction Hall as [|nm f pre frames Hf Hall IH]; intros done total s.
  { cbn [app read_frames non_null]. unfold mbind, M_bind.
    destruct (read_file_unreadable E dir name s Halloc Hbad) as (s' & -> & He & Hq).
    exists s'. done. }
  cbn [app read_frames non_null]. unfold mbind, M_bind.
  rewrite (read_file_forward E dir nm f s Halloc Hf).
  cbn [fmap option_fmap option_map length replicate].
  rewrite !insert_app_r_alt by (by rewrite length_fmap).
  rewrite !length_fmap, Nat.sub_diag. cbn [insert list_insert].
  replace ((Some <$> done) ++ Some f :: replicate (length (pre ++ name :: post)) None)
    with ((Some <$> (done ++ [f])) ++ replicate (length (pre ++ name :: post)) None)
    by (by rewrite fmap_app, <- app_assoc).
  replace ((frame_len <$> done) ++ frame_len f :: replicate (length (pre ++ name :: post)) 0)
    with ((frame_len <$> (done ++ [f])) ++ replicate (length (pre ++ name :: post)) 0)
    by (by rewrite fmap_app, <- app_assoc).
  replace (S (length done)) with (length (done ++ [f]))
    by (rewrite length_app; simpl; lia).
  match goal with |- context [read_frames E dir n _ _ _ _ ?t ?s1] =>
    destruct (IH (done ++ [f]) t s1) as (s' & -> & He & Hq) end.
  exists s'. split; [done|]. split; [done|].
  eapply quiet_trans; [|apply Hq]. done.
Qed.

(** X14: the first frame, in the order of the sorted names, that cannot
    be opened or comes short when read ends the run: it prints
    [Failed to open <path>: <error>] or [Failed to read <path>] for that
    frame and nothing else, returns 1, and leaves the disk as it was.
    The frames after it are not looked at. *)
Theorem unreadable_frame_reported qsort compressBound deflate E p prog dir out disk
    pre name post frames s0 :
  (∀ k size, alloc_ok E k size = true) →
  scan qsort E p dir (initial disk) = (Ret (inl (pre ++ name :: post)), s0) →
  Forall2 (λ name f, frame_of E dir name = Some f) pre frames →
  frame_of E dir name = None →
  ∃ s',
    run qsort compressBound deflate E p prog [dir; out] disk = (Exited 1, s') ∧
    st_stderr s' = [read_complaint E (snprintf_path dir name)] ∧
    st_stdout s' = [] ∧ st_disk s' = disk.
Proof.
  intros Halloc Hscan Hall Hbad.
  pose proof (scan_outcome qsort E p dir (initial disk)) as Hs0. rewrite Hscan in Hs0.
  unfold run, main, collect, mbind, M_bind. rewrite Hscan.
  rewrite bool_decide_eq_false_2 by (by destruct pre).
  unfold calloc, mbind, M_bind, mret, M_ret, alloc. rewrite !Halloc.
  cbv beta iota. cbn [st_allocs st_stderr st_stdout st_disk].
  match goal with |- context [read_frames E dir ?n _ 0 _ _ 0 ?s1] =>
    destruct (read_frames_stops E dir n pre name post frames [] 0 s1
                Halloc Hall Hbad) as (s2 & Hread & He & Ho & Hd) end.
  cbn [length app fmap list_fmap] in Hread. rewrite Hread.
  eexists. split; [done|]. cbn [st_stderr st_stdout st_disk] in *.
  destruct Hs0 as (He0 & Ho0 & Hd0). simpl in *.
  rewrite He, Ho, Hd, He0, Ho0, Hd0. done.
Qed.

(** X15: when the frames are joined and zlib fails, the run prints
    [deflateInit2 failed: <status>] if [deflateInit2] does not return
    [Z_OK], and otherwise [deflate failed: <status>] if [deflate] does
    not return [Z_STREAM_END]; it returns 1 and the output file is
    neither created nor changed. *)
Theorem compression_failure_reported qsort compressBound deflate E p prog dir out disk
    names frames r0 r1 produced :
  (∀ k size, alloc_ok E k size = true) →
  frame_set qsort E p dir disk names frames →
  joined_size frames < 2 ^ size_t_bits →
  deflateInit2 E deflate_args = r0 →
  deflate deflate_args Z_FINISH
    (take (Z.to_nat (to_uInt (joined_size frames))) (frames_joined frames))
    (to_uInt (to_uLong p (compressBound (to_uLong p (joined_size frames)))))
    = (r1, produced) →
  r0 ≠ Z_OK ∨ r1 ≠ Z_STREAM_END →
  ∃ s',
    run qsort compressBound deflate E p prog [dir; out] disk = (Exited 1, s') ∧
    st_stderr s' = [if bool_decide (r0 = Z_OK)
                    then "deflate failed: " +:+ pretty r1 +:+ nl
                    else "deflateInit2 failed: " +:+ pretty r0 +:+ nl] ∧
    st_stdout s' = [] ∧ st_disk s' = disk.
Proof.
  intros Halloc Hfs Hfit Hinit Hdefl Hbad.
  destruct (main_forward qsort compressBound deflate E p prog dir out disk names frames
              Halloc Hfs Hfit) as (s2 & (He & Ho & Hd) & Hmain).
  unfold run. rewrite Hmain.
  unfold compress, mbind, M_bind, alloc. rewrite Halloc. cbv beta iota zeta. cbn [negb].
  rewrite Hinit. case_bool_decide as H0.
  - rewrite (proj2 (Z.eqb_eq _ _) H0). cbn [negb]. rewrite Hdefl.
    destruct Hbad as [?|H1]; [done|].
    rewrite (proj2 (Z.eqb_neq _ _) H1). cbn [negb]. step_M.
    eexists. split; [done|]. simpl. by rewrite He, Ho, Hd.
  - rewrite (proj2 (Z.eqb_neq _ _) H0). cbn [negb]. step_M.
    eexists. split; [done|]. simpl. by rewrite He, Ho, Hd.
Qed.

(** X16: when the compressed bytes are ready and the output file cannot
    be opened for writing, the run prints
    [Failed to create <output_file>: <error>], returns 1 and leaves the
    disk as it was. *)
Theorem output_not_created qsort compressBound deflate E p prog dir out disk blob s1 e :
  pack qsort compressBound deflate E p dir (initial disk) = (Ret blob, s1) →
  fopen_wb E out = inr e →
  ∃ s',
    run qsort compressBound deflate E p prog [dir; out] disk = (Exited 1, s') ∧
    st_stderr s' = ["Failed to create " +:+ out +:+ ": " +:+ e +:+ nl] ∧
    st_stdout s' = [] ∧ st_disk s' = disk.
Proof.
  intros Hpack Hopen.
  destruct (pack_silent _ _ _ _ _ _ _ _ _ Hpack) as (He & Ho & Hd).
  unfold run. rewrite main_pack, Hpack.
  unfold persist. rewrite Hopen. step_M.
  eexists. split; [done|]. simpl. by rewrite He, Ho, Hd.
Qed.

Lemma read_frames_null E dir n name rest i fs total s :
  match read_frames E dir n (name :: rest) i None fs total s with
  | (Fault, s') => quiet s s'
  | _ => False
  end.
Proof.
  cbn [read_frames]. unfold mbind, M_bind.
  pose proof (read_file_cases E (snprintf_path dir name) (non_null fs) s) as Hc.
  destruct (read_file E (snprintf_path dir name) (non_null fs) s)
    as [[[[buf size]|]| |] s1]; unfold fault.
  - by destruct Hc as (_ & (_ & Hq) & _).
  - done.
  - done.
  - by destruct Hc as (_ & _ & Hq).
Qed.

(** X17: the [calloc] of [frame_contents] (line 116) is not checked.
    Whenever the scan has returned at least one name and that [calloc]
    returns NULL, the result of the first [read_file] is stored through
    the null pointer: the run has undefined behaviour and no exit
    status, on both builds, whatever the files hold.  The disk is as it
    was. *)
Theorem frame_array_unchecked qsort compressBound deflate E p prog dir out disk names s0 :
  scan qsort E p dir (initial disk) = (Ret (inl names), s0) →
  names ≠ [] →
  alloc_ok E (st_allocs s0) (Z.of_nat (length names) * 8) = false →
  ∃ s',
    run qsort compressBound deflate E p prog [dir; out] disk = (Undefined, s') ∧
    st_stdout s' = [] ∧ st_disk s' = disk.
Proof.
  intros Hscan Hne Halloc.
  pose proof (scan_outcome qsort E p dir (initial disk)) as Hs0. rewrite Hscan in Hs0.
  destruct Hs0 as (He0 & Ho0 & Hd0).
  unfold run, main, collect, mbind, M_bind. rewrite Hscan.
  rewrite bool_decide_eq_false_2 by (by destruct names).
  unfold calloc, mbind, M_bind, mret, M_ret, alloc. rewrite Halloc.
  cbv beta iota. cbn [st_allocs st_stderr st_stdout st_disk].
  destruct names as [|name rest]; [done|].
  match goal with |- context [read_frames E dir ?n _ 0 None ?fs 0 ?s1] =>
    pose proof (read_frames_null E dir n name rest 0 fs 0 s1) as Hn;
    destruct (read_frames E dir n (name :: rest) 0 None fs 0 s1) as [[?|?|] s2]
  end; try done.
  eexists. split; [done|]. destruct Hn as (Ho & Hd). simpl in *.
  by rewrite Ho, Hd, Ho0, Hd0.
Qed.

Lemma granted_weaken E a b a' b' :
  granted E a b → (a ≤ a')%nat → (b' ≤ b)%nat → granted E a' b'.
Proof. intros H ? ? k size Hk. apply H. lia. Qed.

Lemma read_file_forward_at E dir name f s :
  granted E (st_allocs s) (S (st_allocs s)) →
  frame_of E dir name = Some f →
  read_file E (snprintf_path dir name) true s = (Ret (Some (f, frame_len f)), bump s).
Proof.
  intros Halloc Hf. unfold frame_of in Hf. unfold read_file.
  destruct (fopen_rb E (snprintf_path dir name)) as [st|e]; [|done].
  cbv zeta in Hf. destruct (to_size_t (s_tell st) <=? _) eqn:Hle; [|done].
  apply Z.leb_le in Hle. injection Hf as <-.
  unfold mbind, M_bind, alloc. rewrite Halloc by lia. cbv beta iota zeta. cbn [negb].
  rewrite Z.min_l by done. rewrite Z.eqb_refl. cbn [negb].
  assert (0 ≤ to_size_t (s_tell st)) by (apply Z.mod_pos_bound; done).
  unfold mret, M_ret, frame_len, bump. rewrite length_take.
  do 4 f_equal. lia.
Qed.

Lemma read_frames_forward_at E dir n names frames (done : list (list byte)) total s :
  granted E (st_allocs s) (st_allocs s + length names) →
  Forall2 (λ name f, frame_of E dir name = Some f) names frames →
  n = (length done + length names)%nat →
  ∃ s',
    read_frames E dir n names (length done)
      (Some ((Some <$> done) ++ replicate (length names) None))
      (Some ((frame_len <$> done) ++ replicate (length names) 0)) total s
    = (Ret (Some (Some <$> (done ++ frames)), Some (frame_len <$> (done ++ frames)),
            if decide (names = []) then total
            else to_size_t (total + joined_size frames)), s') ∧
    silent s s' ∧ st_allocs s' = (st_allocs s + length names)%nat.
Proof.
  intros Halloc Hall. revert done total s Halloc.
  induction Hall as [|name f names frames Hf Hall IH]; intros done total s Halloc Hn.
  { exists s. rewrite !app_nil_r. simpl. split; [done|]. split; [done|lia]. }
  cbn [read_frames non_null]. unfold mbind, M_bind.
  rewrite (read_file_forward_at E dir name f s) by
    (done || (eapply granted_weaken; [apply Halloc|lia|simpl; lia])).
  cbn [fmap option_fmap option_map length replicate].
  rewrite !insert_app_r_alt by (by rewrite length_fmap).
  rewrite !length_fmap, Nat.sub_diag. cbn [insert list_insert].
  replace ((Some <$> done) ++ Some f :: replicate (length names) None)
    with ((Some <$> (done ++ [f])) ++ replicate (length names) None)
    by (by rewrite fmap_app, <- app_assoc).
  replace ((frame_len <$> done) ++ frame_len f :: replicate (length names) 0)
    with ((frame_len <$> (done ++ [f])) ++ replicate (length names) 0)
    by (by rewrite fmap_app, <- app_assoc).
  replace (S (length done)) with (length (done ++ [f]))
    by (rewrite length_app; simpl; lia).
  match goal with |- context [read_frames E dir n names _ _ _ ?t ?s1] =>
    destruct (IH (done ++ [f]) t s1) as (s' & -> & Hsil & Hcount) end.
  { eapply granted_weaken; [apply Halloc|simpl; lia|simpl; lia]. }
  { rewrite length_app. simpl in *. lia. }
  exists s'. rewrite <- !app_assoc. split.
  2:{ split; [eapply silent_trans; [apply silent_bump|done]|]. simpl in *. lia. }
  rewrite (decide_False (P := name :: names = [])) by done.
  match goal with |- (Ret (_, _, ?a), _) = (Ret (_, _, ?b), _) =>
    assert (a = b) as ->; [|done] end.
  subst n. cbn [length] in *.
  pose proof (Forall2_length _ _ _ Hall) as Hlen.
  destruct (decide (names = [])) as [->|Hne].
  - destruct frames; [|done]. cbn [length].
    rewrite (proj2 (Z.ltb_ge _ _)) by lia.
    unfold joined_size, frame_len. simpl. rewrite Nat.add_0_r. f_equal. lia.
  - assert (length names ≠ 0%nat) by (by destruct names).
    assert (frames ≠ []) by (by destruct frames, names).
    rewrite (proj2 (Z.ltb_lt _ _)) by lia.
    rewrite !to_size_t_idemp, (joined_size_cons f frames) by done.
    rewrite <- Z.add_assoc, to_size_t_idemp. f_equal. lia.
Qed.

Lemma read_frames_refused E dir n pre name post frames f (done : list (list byte)) total s :
  granted E (st_allocs s) (st_allocs s + length pre) →
  refused E (st_allocs s + length pre) →
  Forall2 (λ name f, frame_of E dir name = Some f) pre frames →
  fopen_rb E (snprintf_path dir name) = inl f →
  ∃ s',
    read_frames E dir n (pre ++ name :: post) (length done)
      (Some ((Some <$> done) ++ replicate (length (pre ++ name :: post)) None))
      (Some ((frame_len <$> done) ++ replicate (length (pre ++ name :: post)) 0)) total s
    = (Exit 1, s') ∧ silent s s'.
Proof.
  intros Halloc Hfail Hall Hopen. revert done total s Halloc Hfail.
  induction Hall as [|nm g pre frames Hg Hall IH]; intros done total s Halloc Hfail.
  { cbn [app read_frames non_null]. unfold mbind, M_bind.
    unfold read_file. rewrite Hopen. unfold mbind, M_bind, alloc.
    simpl in Hfail. rewrite Nat.add_0_r in Hfail. rewrite Hfail.
    cbv beta iota zeta. cbn [negb]. step_M. eexists. split; [done|]. done. }
  cbn [app read_frames non_null]. unfold mbind, M_bind.
  rewrite (read_file_forward_at E dir nm g s) by
    (done || (eapply granted_weaken; [apply Halloc|lia|simpl; lia])).
  cbn [fmap option_fmap option_map length replicate].
  rewrite !insert_app_r_alt by (by rewrite length_fmap).
  rewrite !length_fmap, Nat.sub_diag. cbn [insert list_insert].
  replace ((Some <$> done) ++ Some g :: replicate (length (pre ++ name :: post)) None)
    with ((Some <$> (done ++ [g])) ++ replicate (length (pre ++ name :: post)) None)
    by (by rewrite fmap_app, <- app_assoc).
  replace ((frame_len <$> done) ++ frame_len g :: replicate (length (pre ++ name :: post)) 0)
    with ((frame_len <$> (done ++ [g])) ++ replicate (length (pre ++ name :: post)) 0)
    by (by rewrite fmap_app, <- app_assoc).
  replace (S (length done)) with (length (done ++ [g]))
    by (rewrite length_app; simpl; lia).
  match goal with |- context [read_frames E dir n _ _ _ _ ?t ?s1] =>
    destruct (IH (done ++ [g]) t s1) as (s' & -> & Hsil) end.
  { eapply granted_weaken; [apply Halloc|simpl; lia|simpl; lia]. }
  { replace (st_allocs (bump s) + length pre)%nat
      with (st_allocs s + length (nm :: pre))%nat by (simpl; lia). done. }
  exists s'. split; [done|]. eapply silent_trans; [apply silent_bump|done].
Qed.

Lemma collect_forward_at qsort E p dir disk names frames s0 :
  scan qsort E p dir (initial disk) = (Ret (inl names), s0) →
  names ≠ [] →
  Forall2 (λ name f, frame_of E dir name = Some f) names frames →
  granted E (st_allocs s0) (st_allocs s0 + 2 + length names) →
  ∃ s1,
    collect qsort E p dir (initial disk)
    = (Ret (length frames, Some (Some <$> frames), Some (frame_len <$> frames),
            to_size_t (joined_size frames)), s1) ∧
    silent (initial disk) s1 ∧
    st_allocs s1 = (st_allocs s0 + 2 + length names)%nat.
Proof.
  intros Hscan Hne Hall Halloc.
  pose proof (scan_outcome qsort E p dir (initial disk)) as Hs0. rewrite Hscan in Hs0.
  pose proof (Forall2_length _ _ _ Hall) as Hlen.
  unfold collect, mbind, M_bind. rewrite Hscan.
  rewrite bool_decide_eq_false_2 by (by destruct names).
  unfold calloc, mbind, M_bind, mret, M_ret, alloc.
  rewrite (Halloc (st_allocs s0)) by lia.
  cbv beta iota. cbn [st_allocs st_stderr st_stdout st_disk].
  rewrite (Halloc (S (st_allocs s0))) by lia.
  match goal with |- context [read_frames E dir _ names 0 _ _ 0 ?s1] =>
    destruct (read_frames_forward_at E dir (length names) names frames [] 0 s1)
      as (s2 & Hread & Hs2 & Hcount) end.
  { cbn [st_allocs]. eapply granted_weaken; [apply Halloc|lia|lia]. }
  { done. }
  { done. }
  cbn [length app fmap list_fmap] in Hread. rewrite Hread.
  rewrite decide_False by done. rewrite Z.add_0_l, Hlen.
  eexists. split; [done|]. split.
  - eapply silent_trans; [apply Hs0|]. eapply silent_trans; [|apply Hs2]. done.
  - simpl in Hcount. lia.
Qed.

(** X18: a failed allocation of a read buffer is not reported.  When the
    two arrays and the buffers of the frames before it were granted, the
    file of a frame opens, and the [malloc] of its buffer (line 74)
    returns NULL, the run returns 1 without a word on standard error;
    the disk is as it was.  The requests are counted from the end of the
    scan. *)
Theorem read_buffer_failure_silent qsort compressBound deflate E p prog dir out disk
    pre name post frames f s0 :
  scan qsort E p dir (initial disk) = (Ret (inl (pre ++ name :: post)), s0) →
  Forall2 (λ name f, frame_of E dir name = Some f) pre frames →
  fopen_rb E (snprintf_path dir name) = inl f →
  granted E (st_allocs s0) (st_allocs s0 + 2 + length pre) →
  refused E (st_allocs s0 + 2 + length pre) →
  ∃ s',
    run qsort compressBound deflate E p prog [dir; out] disk = (Exited 1, s') ∧
    st_stderr s' = [] ∧ st_stdout s' = [] ∧ st_disk s' = disk.
Proof.
  intros Hscan Hall Hopen Halloc Hfail.
  pose proof (scan_outcome qsort E p dir (initial disk)) as Hs0. rewrite Hscan in Hs0.
  unfold run, main, collect, mbind, M_bind. rewrite Hscan.
  rewrite bool_decide_eq_false_2 by (by destruct pre).
  unfold calloc, mbind, M_bind, mret, M_ret, alloc.
  rewrite (Halloc (st_allocs s0)) by lia.
  cbv beta iota. cbn [st_allocs st_stderr st_stdout st_disk].
  rewrite (Halloc (S (st_allocs s0))) by lia.
  match goal with |- context [read_frames E dir ?n _ 0 _ _ 0 ?s1] =>
    destruct (read_frames_refused E dir n pre name post frames f [] 0 s1)
      as (s2 & Hread & He & Ho & Hd) end.
  { cbn [st_allocs]. eapply granted_weaken; [apply Halloc|lia|lia]. }
  { cbn [st_allocs]. replace (S (S (st_allocs s0)) + length pre)%nat
      with (st_allocs s0 + 2 + length pre)%nat by lia. done. }
  { done. }
  { done. }
  cbn [length app fmap list_fmap] in Hread. rewrite Hread.
  eexists. split; [done|]. cbn [st_stderr st_stdout st_disk] in *.
  destruct Hs0 as (He0 & Ho0 & Hd0). simpl in *.
  rewrite He, Ho, Hd, He0, Ho0, Hd0. done.
Qed.

(** X19: a failed allocation of the joined buffer is reported.  When the
    two arrays and the read buffers were granted, every frame was read,
    and the [malloc] of the joined buffer (line 136) returns NULL, the
    run prints [Failed to allocate joined buffer], returns 1 and leaves
    the disk as it was. *)
Theorem joined_buffer_failure_reported qsort compressBound deflate E p prog dir out disk
    names frames s0 :
  scan qsort E p dir (initial disk) = (Ret (inl names), s0) →
  names ≠ [] →
  Forall2 (λ name f, frame_of E dir name = Some f) names frames →
  granted E (st_allocs s0) (st_allocs s0 + 2 + length names) →
  refused E (st_allocs s0 + 2 + length names) →
  ∃ s',
    run qsort compressBound deflate E p prog [dir; out] disk = (Exited 1, s') ∧
    st_stderr s' = ["Failed to allocate joined buffer" +:+ nl] ∧
    st_stdout s' = [] ∧ st_disk s' = disk.
Proof.
  intros Hscan Hne Hall Halloc Hfail.
  destruct (collect_forward_at qsort E p dir disk names frames s0 Hscan Hne Hall Halloc)
    as (s1 & Hc & (He1 & Ho1 & Hd1) & Hcount).
  unfold run, main. unfold mbind at 1 2. unfold M_bind at 1 2. rewrite Hc.
  cbv beta iota.
  unfold concatenate, mbind, M_bind, alloc. rewrite Hcount, Hfail.
  cbv beta iota. cbn [negb]. step_M.
  eexists. split; [done|]. simpl. by rewrite He1, Ho1, Hd1.
Qed.

(** X20: a failed allocation of the compression buffer is reported.  When
    every request up to the joined buffer was granted, every frame was
    read and joined, and the [malloc] of the compression buffer
    (line 152) returns NULL, the run prints
    [Failed to allocate compression buffer], returns 1 and leaves the
    disk as it was. *)
Theorem compression_buffer_failure_reported qsort compressBound deflate E p prog dir out
    disk names frames s0 :
  scan qsort E p dir (initial disk) = (Ret (inl names), s0) →
  names ≠ [] →
  Forall2 (λ name f, frame_of E dir name = Some f) names frames →
  joined_size frames < 2 ^ size_t_bits →
  granted E (st_allocs s0) (st_allocs s0 + 3 + length names) →
  refused E (st_allocs s0 + 3 + length names) →
  ∃ s',
    run qsort compressBound deflate E p prog [dir; out] disk = (Exited 1, s') ∧
    st_stderr s' = ["Failed to allocate compression buffer" +:+ nl] ∧
    st_stdout s' = [] ∧ st_disk s' = disk.
Proof.
  intros Hscan Hne Hall Hfit Halloc Hfail.
  destruct (collect_forward_at qsort E p dir disk names frames s0 Hscan Hne Hall)
    as (s1 & Hc & (He1 & Ho1 & Hd1) & Hcount).
  { eapply granted_weaken; [apply Halloc|lia|lia]. }
  assert (frames ≠ []) as Hfr by (apply Forall2_length in Hall; by destruct names, frames).
  unfold run, main. unfold mbind at 1 2. unfold M_bind at 1 2. rewrite Hc.
  cbv beta iota.
  rewrite (concatenate_at E frames s1) by (done || (apply Halloc; lia)).
  cbv beta iota.
  unfold compress, mbind, M_bind, alloc. cbn [bump st_allocs].
  rewrite Hcount. replace (S (st_allocs s0 + 2 + length names))
    with (st_allocs s0 + 3 + length names)%nat by lia.
  rewrite Hfail. cbv beta iota zeta. cbn [negb]. step_M.
  eexists. split; [done|]. simpl. by rewrite He1, Ho1, Hd1.
Qed.

(** ** Runs and the output file *)

(** X21: a run in which every step succeeds.  When every allocation is
    granted, the scan returns the names of files that can all be read,
    [deflateInit2] returns [Z_OK], [deflate] returns [Z_STREAM_END] with
    [blob], the output file opens, [fwrite] takes every byte and
    [fclose] flushes every byte to the file, the run returns 0, the
    output file holds exactly [blob], every other file is as it was, and
    nothing is printed. *)
Theorem run_succeeds qsort compressBound deflate E p prog dir out disk names frames blob :
  (∀ k size, alloc_ok E k size = true) →
  frame_set qsort E p dir disk names frames →
  packed compressBound deflate E p frames blob →
  fopen_wb E out = inl () →
  (length blob ≤ fwrite_count E (length blob))%nat →
  (length blob ≤ fclose_flush E (length blob))%nat →
  ∃ s',
    run qsort compressBound deflate E p prog [dir; out] disk = (Exited 0, s') ∧
    st_disk s' !! out = Some blob ∧
    (∀ path, path ≠ out → st_disk s' !! path = disk !! path) ∧
    st_stderr s' = [] ∧ st_stdout s' = [].
Proof.
  intros Halloc Hfs Hp Hopen Hwrite Hflush.
  destruct (run_forward qsort compressBound deflate E p prog dir out disk names frames blob
              Halloc Hfs Hp Hopen Hwrite Hflush) as (s' & Hrun & Hd & He & Ho).
  exists s'. split; [done|]. rewrite Hd. split; [by rewrite lookup_insert_eq|].
  split; [|done]. intros path Hne. by rewrite lookup_insert_ne.
Qed.

(** X22: what the status 0 means.  A run that returns 0 has scanned a
    non-empty list of names, read every file so named, got [blob] from
    [deflate] with status [Z_STREAM_END] on the joined frames (the first
    [total_size mod 2^32] bytes of them, [avail_in] being a [uInt]), and
    handed [blob] to [fwrite], which took every byte; it has printed
    nothing.  It does not mean that the output file holds [blob]: the
    result of [fclose] is not looked at, and the file holds the bytes
    that the flush wrote out, a prefix of [blob] that is the whole of it
    only when the flush was complete. *)
Theorem exit_zero_output qsort compressBound deflate E p prog dir out disk s' :
  run qsort compressBound deflate E p prog [dir; out] disk = (Exited 0, s') →
  ∃ names frames blob,
    frame_set qsort E p dir disk names frames ∧
    deflateInit2 E deflate_args = Z_OK ∧
    deflate deflate_args Z_FINISH
      (take (Z.to_nat (to_uInt (joined_size frames))) (frames_joined frames))
      (to_uInt (to_uLong p (compressBound (to_uLong p (joined_size frames)))))
      = (Z_STREAM_END, blob) ∧
    (length blob ≤ fwrite_count E (length blob))%nat ∧
    st_disk s' = <[out := take (fclose_flush E (length blob)) blob]> disk ∧
    ((length blob ≤ fclose_flush E (length blob))%nat →
     st_disk s' = <[out := blob]> disk) ∧
    st_stderr s' = [] ∧ st_stdout s' = [].
Proof.
  intros Hrun.
  pose proof (run_stdout qsort compressBound deflate E p prog [dir; out] disk) as Ho.
  rewrite Hrun in Ho.
  apply run_success in Hrun
    as (names & frames & blob & Hfs & (_ & Hi & Hdefl) & Hw & Hd & He).
  exists names, frames, blob.
  split; [done|]. split; [done|]. split; [done|]. split; [done|]. split; [done|].
  split; [|done]. intros Hflush. by rewrite take_ge in Hd.
Qed.

(** X23: what a run that returns from [main] has done to the disk.  It
    has changed no file other than the output file; and the output file
    is either untouched, or it holds the first [k] bytes of the
    compressed frames, every frame having been read and compressed
    before the file was opened.  When the run returns 1, [k] is the
    number of bytes [fwrite] took, fewer than all; when it returns 0,
    [fwrite] took them all and [k] is the number of bytes that [fclose]
    flushed, which can be any number up to all of them. *)
Theorem output_is_prefix qsort compressBound deflate E p prog dir out disk c s' :
  run qsort compressBound deflate E p prog [dir; out] disk = (Exited c, s') →
  (∀ path, path ≠ out → st_disk s' !! path = disk !! path) ∧
  (c = 1 ∧ st_disk s' = disk ∨
   ∃ names frames blob k,
     frame_set qsort E p dir disk names frames ∧
     packed compressBound deflate E p frames blob ∧
     (k ≤ length blob)%nat ∧
     st_disk s' = <[out := take k blob]> disk ∧
     (c = 1 ∧ k = fwrite_count E (length blob) ∧ (k < length blob)%nat ∨
      c = 0 ∧ (length blob ≤ fwrite_count E (length blob))%nat ∧
      k = (fclose_flush E (length blob) `min` length blob)%nat)).
Proof.
  intros Hrun.
  pose proof (run_cases qsort compressBound deflate E p prog dir out disk) as Hc.
  rewrite Hrun in Hc.
  assert (c = 1 ∧ st_disk s' = disk ∨
   ∃ names frames blob k,
     frame_set qsort E p dir disk names frames ∧
     packed compressBound deflate E p frames blob ∧
     (k ≤ length blob)%nat ∧
     st_disk s' = <[out := take k blob]> disk ∧
     (c = 1 ∧ k = fwrite_count E (length blob) ∧ (k < length blob)%nat ∨
      c = 0 ∧ (length blob ≤ fwrite_count E (length blob))%nat ∧
      k = (fclose_flush E (length blob) `min` length blob)%nat)) as H.
  { destruct Hc as [[-> ?]|(names & frames & blob & Hfs & Hp
                             & [(-> & Hw & Hd & _)|(-> & Hk & Hd)])].
    - by left.
    - right. exists names, frames, blob,
        (fclose_flush E (length blob) `min` length blob)%nat.
      split; [done|]. split; [done|]. split; [lia|]. split.
      { rewrite Hd. f_equal.
        destruct (Nat.min_spec (fclose_flush E (length blob)) (length blob))
          as [[_ ->]|[? ->]]; [done|].
        by rewrite firstn_all, take_ge. }
      right. done.
    - right. exists names, frames, blob, (fwrite_count E (length blob)).
      split; [done|]. split; [done|]. split; [lia|]. split; [done|]. left. done. }
  split; [|done]. intros path Hne.
  destruct H as [[_ Hd]|(? & ? & ? & k & _ & _ & _ & Hd & _)]; rewrite Hd; [done|].
  by rewrite lookup_insert_ne.
Qed.

(** ** Standard error *)

Lemma one_line_intro s s' line text :
  st_stderr s' = st_stderr s ++ [line] → line = text +:+ nl → one_line_more s s'.
Proof. intros H ->. right. by exists text. Qed.

Lemma one_line_after s1 s2 s3 :
  st_stderr s2 = st_stderr s1 → one_line_more s2 s3 → one_line_more s1 s3.
Proof. unfold one_line_more. by intros ->. Qed.

(** A step has printed one line: the line is a text followed by a
    newline. *)
Ltac complain :=
  eapply one_line_intro; [reflexivity|];
  rewrite <- ?str_app_assoc; reflexivity.

Ltac line_bound :=
  first [ eapply one_line_after; [eassumption|eassumption]
        | left; simpl in *; congruence ].

Lemma read_file_stderr E path out_size s :
  match read_file E path out_size s with
  | (Ret None, s') => one_line_more s s'
  | (_, s') => st_stderr s' = st_stderr s
  end.
Proof.
  unfold read_file. destruct (fopen_rb E path) as [f|e].
  2:{ step_M. complain. }
  step_M. unfold alloc. destruct (alloc_ok _ _ _); simpl; [|by left].
  destruct (Z.min _ _ =? _); simpl.
  - by destruct out_size.
  - complain.
Qed.

Lemma read_frames_stderr E dir n rest i fc fs total s :
  match read_frames E dir n rest i fc fs total s with
  | (Ret _, s') => st_stderr s' = st_stderr s
  | (_, s') => one_line_more s s'
  end.
Proof.
  revert i fc fs total s. induction rest as [|name rest IH]; intros i fc fs total s.
  { by step_M. }
  cbn [read_frames]. unfold mbind, M_bind.
  pose proof (read_file_stderr E (snprintf_path dir name) (non_null fs) s) as Hrf.
  destruct (read_file E (snprintf_path dir name) (non_null fs) s)
    as [[[[buf size]|]| |] s1].
  - destruct fc as [contents|]; [|by left].
    match goal with |- context [read_frames E dir n rest ?i ?fc ?fs ?t s1] =>
      specialize (IH i fc fs t s1);
      destruct (read_frames E dir n rest i fc fs t s1) as [[r|c|] s2] end.
    + by rewrite IH.
    + by eapply one_line_after.
    + by eapply one_line_after.
  - by destruct fc as [contents|].
  - by left.
  - by left.
Qed.

Lemma collect_stderr qsort E p dir s :
  match collect qsort E p dir s with
  | (Ret _, s') => st_stderr s' = st_stderr s
  | (_, s') => one_line_more s s'
  end.
Proof.
  unfold collect, mbind, M_bind.
  pose proof (scan_outcome qsort E p dir s) as Hscan.
  destruct (scan qsort E p dir s) as [[[names|e]| |] s1]; try done.
  2:{ destruct Hscan as (He & _). step_M. eapply one_line_after; [done|]. complain. }
  2:{ left. apply Hscan. }
  destruct Hscan as (He & _).
  case_bool_decide as Hn.
  { step_M. eapply one_line_after; [done|]. complain. }
  unfold calloc, mbind, M_bind, mret, M_ret, alloc. cbv beta iota.
  cbn [st_allocs st_stderr st_stdout st_disk].
  match goal with
  | |- context [read_frames E dir ?n names 0 ?fc ?fs 0 ?s2] =>
      pose proof (read_frames_stderr E dir n names 0 fc fs 0 s2) as Hout;
      destruct (read_frames E dir n names 0 fc fs 0 s2) as [[[[fc' fs'] total]|c|] s3]
  end; simpl in *.
  - by rewrite Hout.
  - by eapply one_line_after.
  - by eapply one_line_after.
Qed.

Lemma concatenate_stderr E n fc fs total s :
  match concatenate E n fc fs total s with
  | (Exit _, s') => one_line_more s s'
  | (_, s') => st_stderr s' = st_stderr s
  end.
Proof.
  unfold concatenate, mbind, M_bind, alloc. cbv beta iota.
  destruct (alloc_ok E _ _); cbn [negb].
  - by destruct (join_frames _ _ _ _ _ _ _).
  - step_M. complain.
Qed.

Lemma compress_stderr compressBound deflate E p joined total s :
  match compress compressBound deflate E p joined total s with
  | (Exit _, s') => one_line_more s s'
  | (_, s') => st_stderr s' = st_stderr s
  end.
Proof.
  unfold compress, mbind, M_bind, alloc. cbv beta iota zeta.
  destruct (alloc_ok E _ _); cbn [negb]; [|step_M; complain].
  destruct (deflateInit2 E deflate_args =? Z_OK); cbn [negb]; [|step_M; complain].
  destruct (deflate _ _ _ _) as [r produced].
  destruct (r =? Z_STREAM_END); cbn [negb]; [done|step_M; complain].
Qed.

Lemma persist_stderr E out compressed s :
  match persist E out compressed s with
  | (Exit _, s') => one_line_more s s'
  | (_, s') => st_stderr s' = st_stderr s
  end.
Proof.
  unfold persist. destruct (fopen_wb E out) as [[]|e].
  2:{ step_M. complain. }
  step_M. destruct (_ =? _)%nat; simpl; [done|]. complain.
Qed.

(** X24: what a run prints and returns.  Every run, with any arguments
    and in any environment, prints at most one diagnostic on standard
    error, ended by a newline, and nothing on standard output; a run
    that returns from [main] returns 0 or 1, and a run that returns 0
    has printed nothing. *)
Theorem diagnostics_bounded qsort compressBound deflate E p prog args disk :
  let '(r, s') := run qsort compressBound deflate E p prog args disk in
  (st_stderr s' = [] ∨ ∃ text, st_stderr s' = [text +:+ nl]) ∧
  st_stdout s' = [] ∧
  (r = Exited 0 ∨ r = Exited 1 ∨ r = Undefined) ∧
  (r = Exited 0 → st_stderr s' = []).
Proof.
  pose proof (run_stdout qsort compressBound deflate E p prog args disk) as Ho.
  destruct (run qsort compressBound deflate E p prog args disk) as [r s'] eqn:Hrun.
  simpl in Ho.
  assert (r = Exited 0 ∨ r = Exited 1 ∨ r = Undefined) as Hr.
  { destruct r as [c|]; [|auto].
    destruct (run_status _ _ _ _ _ _ _ _ _ _ Hrun) as [->|[-> _]]; auto. }
  assert (one_line_more (initial disk) s' ∧ (r = Exited 0 → st_stderr s' = [])) as [H1 H0].
  { destruct (decide (length args = 2%nat)) as [Hlen|Hlen].
    2:{ rewrite usage_error in Hrun by done. injection Hrun as <- <-.
        split; [|done]. complain. }
    destruct args as [|dir [|out [|]]]; try done.
    split.
    2:{ intros ->. by apply run_success in Hrun as (? & ? & ? & _ & _ & _ & _ & ?). }
    revert Hrun. unfold run, main, mbind, M_bind.
    pose proof (collect_stderr qsort E p dir (initial disk)) as Hc.
    destruct (collect qsort E p dir (initial disk)) as [[[[[n fc] fs] total]|c|] s1];
      [|by intros [= <- <-]..].
    pose proof (concatenate_stderr E n fc fs total s1) as Hj.
    destruct (concatenate _ _ _ _ _ s1) as [[joined|c|] s2];
      [|intros [= <- <-]; line_bound..].
    rewrite Hc in Hj.
    pose proof (compress_stderr compressBound deflate E p joined total s2) as Hz.
    destruct (compress _ _ _ _ _ _ s2) as [[blob|c|] s3];
      [|intros [= <- <-]; line_bound..].
    rewrite Hj in Hz.
    pose proof (persist_stderr E out blob s3) as Hp.
    destruct (persist E out blob s3) as [[c|c|] s4];
      intros [= <- <-]; line_bound. }
  split; [|done]. destruct H1 as [->|[text ->]]; [by left|right; by exists text].
Qed.

(** ** The separator *)

Lemma split_at_separator (x : byte) l1 l2 r1 r2 :
  x ∉ l1 → x ∉ l2 → l1 ++ x :: r1 = l2 ++ x :: r2 → l1 = l2 ∧ r1 = r2.
Proof.
  revert l2. induction l1 as [|a l1 IH]; intros [|b l2] H1 H2; simpl.
  - by intros [= ->].
  - intros [= -> _]. exfalso. apply H2. by left.
  - intros [= -> _]. exfalso. apply H1. by left.
  - intros [= -> Heq]. apply not_elem_of_cons in H1 as [_ H1].
    apply not_elem_of_cons in H2 as [_ H2].
    destruct (IH l2 H1 H2 Heq) as [-> ->]. done.
Qed.

Lemma frames_joined_inj fs1 fs2 :
  fs1 ≠ [] → fs2 ≠ [] →
  Forall (λ f, SEPARATOR ∉ f) fs1 → Forall (λ f, SEPARATOR ∉ f) fs2 →
  frames_joined fs1 = frames_joined fs2 → fs1 = fs2.
Proof.
  intros Hn1 Hn2 H1. revert fs2 Hn2.
  induction H1 as [|f1 r1 Hf1 H1 IH]; [done|]. clear Hn1.
  intros fs2 Hn2 H2. destruct H2 as [|f2 r2 Hf2 H2]; [done|]. clear Hn2.
  destruct r1 as [|g1 r1], r2 as [|g2 r2].
  - simpl. by intros ->.
  - rewrite (frames_joined_cons f2) by done. simpl. intros ->.
    exfalso. apply Hf1. apply elem_of_app. right. by left.
  - rewrite (frames_joined_cons f1) by done. simpl. intros <-.
    exfalso. apply Hf2. apply elem_of_app. right. by left.
  - rewrite (frames_joined_cons f1), (frames_joined_cons f2) by done.
    intros Heq. apply split_at_separator in Heq as [-> Heq]; [|done..].
    f_equal. by apply IH.
Qed.

Lemma frames_joined_merge f1 f2 rest :
  frames_joined (f1 :: f2 :: rest) = frames_joined ((f1 ++ SEPARATOR :: f2) :: rest).
Proof.
  destruct rest as [|g rest]; [done|].
  rewrite (frames_joined_cons f1), (frames_joined_cons f2) by done.
  rewrite (frames_joined_cons (f1 ++ _)) by done. by rewrite <- app_assoc.
Qed.

Lemma joined_size_merge f1 f2 rest :
  joined_size (f1 :: f2 :: rest) = joined_size ((f1 ++ SEPARATOR :: f2) :: rest).
Proof. by rewrite <- !frames_joined_length, frames_joined_merge. Qed.

(** X25: the separator is not escaped.  Two consecutive frames [f1] and
    [f2] and the single frame [f1 || 0x01 || f2] give the same joined
    buffer from the same request for memory: the buffer does not tell
    how many frames went into it. *)
Theorem separator_not_escaped E f1 f2 rest s joined s' :
  concatenate E (length (f1 :: f2 :: rest)) (Some (Some <$> f1 :: f2 :: rest))
    (Some (frame_len <$> f1 :: f2 :: rest))
    (to_size_t (joined_size (f1 :: f2 :: rest))) s = (Ret joined, s') →
  concatenate E (length ((f1 ++ SEPARATOR :: f2) :: rest))
    (Some (Some <$> (f1 ++ SEPARATOR :: f2) :: rest))
    (Some (frame_len <$> (f1 ++ SEPARATOR :: f2) :: rest))
    (to_size_t (joined_size ((f1 ++ SEPARATOR :: f2) :: rest))) s = (Ret joined, s').
Proof.
  intros Hc. apply concatenate_ret in Hc as (-> & Hfit & Halloc & ->); [|done].
  rewrite frames_joined_merge. rewrite joined_size_merge in Hfit, Halloc.
  by apply concatenate_at.
Qed.

(** X26: frames without the byte [0x01] can be told apart.  When no
    frame of two frame sets contains the separator and the joined
    buffers are equal, the frame sets are equal: the same number of
    frames with the same bytes, in the same order. *)
Theorem frames_recoverable E1 E2 frames1 frames2 s1 s2 joined s1' s2' :
  frames1 ≠ [] → frames2 ≠ [] →
  Forall (λ f, SEPARATOR ∉ f) frames1 → Forall (λ f, SEPARATOR ∉ f) frames2 →
  concatenate E1 (length frames1) (Some (Some <$> frames1)) (Some (frame_len <$> frames1))
    (to_size_t (joined_size frames1)) s1 = (Ret joined, s1') →
  concatenate E2 (length frames2) (Some (Some <$> frames2)) (Some (frame_len <$> frames2))
    (to_size_t (joined_size frames2)) s2 = (Ret joined, s2') →
  frames1 = frames2.
Proof.
  intros Hn1 Hn2 H1 H2 Hc1 Hc2.
  apply concatenate_ret in Hc1 as (-> & _); [|done].
  apply concatenate_ret in Hc2 as (Heq & _); [|done].
  by apply frames_joined_inj.
Qed.

(** ** Decompression *)

(** X27: below 4 GiB the output decompresses to the joined frames.  For
    a zlib whose [inflate] undoes [deflate], and an [fclose] that
    flushes to the file every byte it was given, the file that a run
    returning 0 has written inflates, with the window bits [-MAX_WBITS]
    of raw DEFLATE, to [frame_1 || 0x01 || ... || frame_N] whenever the
    joined size is below 2^32. *)
Theorem small_output_inflates qsort compressBound deflate
    (inflate : Z → list byte → option (list byte)) E p prog dir out disk s' :
  (∀ input avail_out blob,
     deflate deflate_args Z_FINISH input avail_out = (Z_STREAM_END, blob) →
     inflate (windowBits deflate_args) blob = Some input) →
  flush_completes E →
  run qsort compressBound deflate E p prog [dir; out] disk = (Exited 0, s') →
  ∃ names frames blob,
    frame_set qsort E p dir disk names frames ∧
    st_disk s' !! out = Some blob ∧
    (joined_size frames < 2 ^ uInt_bits →
     inflate (- MAX_WBITS) blob = Some (frames_joined frames)).
Proof.
  intros Hzlib Hflush Hrun.
  destruct (output_inflates qsort compressBound deflate inflate E p prog dir out disk s'
              Hzlib Hflush Hrun) as (names & frames & blob & Hfs & Hd & _ & Hsmall & _).
  by exists names, frames, blob.
Qed.

(** ** The further theorems at concrete inputs *)

Lemma exchange_sort_sorts_witness :
  sort_names ["b.txt"; "a.txt"; "b.txt"; "B.txt"] ≡ₚ ["b.txt"; "a.txt"; "b.txt"; "B.txt"] ∧
  length (sort_names ["b.txt"; "a.txt"; "b.txt"; "B.txt"]) = 4%nat ∧
  StronglySorted name_le (sort_names ["b.txt"; "a.txt"; "b.txt"; "B.txt"]) ∧
  (StronglySorted name_le ["b.txt"; "a.txt"; "b.txt"; "B.txt"] →
   sort_names ["b.txt"; "a.txt"; "b.txt"; "B.txt"] = ["b.txt"; "a.txt"; "b.txt"; "B.txt"]).
Proof.
  apply (exchange_sort_sorts ["b.txt"; "a.txt"; "b.txt"; "B.txt"]).
  repeat constructor; discriminate.
Defined.

Lemma compare_frames_order_witness :
  compare_frames (entry "frame2.txt") (entry "frame10.txt")
    = - compare_frames (entry "frame10.txt") (entry "frame2.txt") ∧
  (compare_frames (entry "frame10.txt") (entry "frame2.txt") = 0
     ↔ d_name (entry "frame10.txt") = d_name (entry "frame2.txt")) ∧
  (compare_frames (entry "frame10.txt") (entry "frame2.txt") ≤ 0 →
   compare_frames (entry "frame2.txt") (entry "frame3.txt") ≤ 0 →
   compare_frames (entry "frame10.txt") (entry "frame3.txt") ≤ 0).
Proof.
  apply (compare_frames_order (entry "frame10.txt") (entry "frame2.txt")
           (entry "frame3.txt"));
    repeat constructor; discriminate.
Defined.

(** The Win32 scan of the sample directory makes three allocations; the
    POSIX scan makes none and returns the same names. *)
Lemma platforms_agree_witness :
  scan msort sample POSIX "frames" (initial ∅) = (Ret (inl ["a.txt"; "b.txt"]), initial ∅).
Proof.
  refine (platforms_agree msort sample "frames" sample_entries
            (found (entry "b.txt")) [found (entry "a.txt")] (initial ∅)
            ["a.txt"; "b.txt"]
            {| st_allocs := 3; st_stderr := []; st_stdout := []; st_disk := ∅ |}
            msort_contract _ _ _ _ _).
  - reflexivity.
  - vm_compute. reflexivity.
  - repeat constructor; discriminate.
  - vm_compute. reflexivity.
  - vm_compute. reflexivity.
Defined.

Lemma frame_paths_distinct_witness :
  snprintf_path "frames" "a.txt" = "frames" +:+ "/" +:+ "a.txt" ∧
  (snprintf_path "frames" "a.txt" = snprintf_path "frames" "b.txt" → "a.txt" = "b.txt").
Proof.
  apply (frame_paths_distinct "frames" "a.txt" "b.txt"); vm_compute; lia.
Defined.

(** A directory name of 4094 bytes: [a.txt] and [b.txt] are read from
    the same path. *)
Lemma long_paths_truncated_witness :
  String.length (snprintf_path (long_name 4094) "a.txt") = (PATH_BUF - 1)%nat ∧
  snprintf_path (long_name 4094) "a.txt" ≠ long_name 4094 +:+ "/" +:+ "a.txt" ∧
  snprintf_path (long_name 4094) "b.txt" = snprintf_path (long_name 4094) "a.txt".
Proof.
  destruct (long_paths_truncated (long_name 4094) "a.txt") as (Hlen & Hne & Hsame).
  - vm_compute. lia.
  - split; [exact Hlen|]. split; [exact Hne|]. apply Hsame. vm_compute. lia.
Defined.

(** 65 files: the array is grown once. *)
Lemma names_array_in_bounds_witness :
  scandir_txt_loop_bounds sample (replicate 65 (found (entry "a.txt"))) 64
    (if true then Some [] else None) (initial ∅)
  = scandir_txt_loop sample (replicate 65 (found (entry "a.txt"))) 64
      (if true then Some [] else None) (initial ∅).
Proof.
  apply (names_array_in_bounds sample (replicate 65 (found (entry "a.txt"))) true
           (initial ∅)).
  vm_compute. discriminate.
Defined.

Lemma win32_names_unchecked_witness :
  ∃ s',
    run msort zlib_compressBound stored_deflate (starved 0) WIN32 "framegen"
      ["frames"; "out.bin"] ∅ = (Undefined, s') ∧
    st_stderr s' = [] ∧ st_stdout s' = [] ∧ st_disk s' = ∅.
Proof.
  refine (win32_names_unchecked msort zlib_compressBound stored_deflate (starved 0)
            "framegen" "frames" "out.bin" ∅ (found (entry "b.txt")) [found (entry "a.txt")]
            _ _ _).
  - vm_compute. reflexivity.
  - left. vm_compute. reflexivity.
  - reflexivity.
Defined.

Lemma read_file_result_witness :
  ∃ f,
    fopen_rb sample "frames/a.txt" = inl f ∧
    alloc_ok sample (st_allocs (initial ∅)) (to_size_t (s_tell f)) = true ∧
    2 = to_size_t (s_tell f) ∧
    2 = Z.of_nat (length (file_bytes "AA")) ∧
    file_bytes "AA" = take (length (file_bytes "AA")) (s_data f) ∧
    bump (initial ∅) = bump (initial ∅).
Proof.
  apply (read_file_result sample "frames/a.txt" (initial ∅) (file_bytes "AA") 2
           (bump (initial ∅))).
  vm_compute. reflexivity.
Defined.

Lemma ftell_failure_caught_witness :
  ∃ s',
    read_file (one_frame_env (-1) [x00]) "frames/a.txt" true (initial ∅) = (Ret None, s') ∧
    (st_stderr s' = st_stderr (initial ∅) ∨
     st_stderr s' = st_stderr (initial ∅) ++ ["Failed to read " +:+ "frames/a.txt" +:+ nl]) ∧
    quiet (initial ∅) s'.
Proof.
  apply (ftell_failure_caught (one_frame_env (-1) [x00]) "frames/a.txt" true
           {| s_tell := -1; s_data := [x00] |} (initial ∅)).
  - reflexivity.
  - reflexivity.
  - vm_compute. reflexivity.
Defined.

Lemma wrong_arity_witness :
  run msort zlib_compressBound stored_deflate sample POSIX "framegen" ["frames"] ∅
  = (Exited 1,
     {| st_allocs := 0;
        st_stderr := ["Usage: " +:+ "framegen" +:+ " <frames_dir> <output_file>" +:+ nl];
        st_stdout := []; st_disk := ∅ |}).
Proof.
  apply (wrong_arity msort zlib_compressBound stored_deflate sample POSIX "framegen"
           ["frames"] ∅).
  simpl. lia.
Defined.

Lemma scan_failure_reported_witness :
  run msort zlib_compressBound stored_deflate sample POSIX "framegen"
    ["nowhere"; "out.bin"] ∅
  = (Exited 1,
     {| st_allocs := 0;
        st_stderr := ["Failed to scan directory " +:+ "nowhere" +:+ ": "
                        +:+ "No such file or directory" +:+ nl];
        st_stdout := []; st_disk := ∅ |}).
Proof.
  apply (scan_failure_reported msort zlib_compressBound stored_deflate sample POSIX
           "framegen" "nowhere" "out.bin" ∅ "No such file or directory").
  reflexivity.
Defined.

Lemma no_frames_reported_witness :
  ∃ s',
    run msort zlib_compressBound stored_deflate
      (sample_env [entry "a.png"] always (λ n, n)) POSIX "framegen"
      ["frames"; "out.bin"] ∅ = (Exited 1, s') ∧
    st_stderr s' = ["No frame files found in " +:+ "frames" +:+ nl] ∧
    st_stdout s' = [] ∧ st_disk s' = ∅.
Proof.
  apply (no_frames_reported msort zlib_compressBound stored_deflate
           (sample_env [entry "a.png"] always (λ n, n)) POSIX "framegen"
           "frames" "out.bin" ∅ msort_contract).
  exists [entry "a.png"]. split; [reflexivity|].
  constructor; [|constructor]. rewrite <- filter_frames_spec. vm_compute. tauto.
Defined.

Lemma unreadable_frame_reported_witness :
  ∃ s',
    run msort zlib_compressBound stored_deflate unreadable POSIX "framegen"
      ["frames"; "out.bin"] ∅ = (Exited 1, s') ∧
    st_stderr s' = [read_complaint unreadable (snprintf_path "frames" "c.txt")] ∧
    st_stdout s' = [] ∧ st_disk s' = ∅.
Proof.
  refine (unreadable_frame_reported msort zlib_compressBound stored_deflate unreadable
            POSIX "framegen" "frames" "out.bin" ∅ ["a.txt"] "c.txt" []
            [file_bytes "AA"] (initial ∅) (λ _ _, eq_refl) _ _ _).
  - vm_compute. reflexivity.
  - repeat constructor.
  - vm_compute. reflexivity.
Defined.

(** [deflateInit2] returns [Z_STREAM_ERROR]. *)
Lemma compression_failure_reported_witness :
  ∃ s',
    run msort zlib_compressBound stored_deflate (with_deflateInit2 sample (-2)) POSIX
      "framegen" ["frames"; "out.bin"] ∅ = (Exited 1, s') ∧
    st_stderr s' = [if bool_decide (-2 = Z_OK)
                    then "deflate failed: " +:+ pretty Z_STREAM_END +:+ nl
                    else "deflateInit2 failed: " +:+ pretty (-2) +:+ nl] ∧
    st_stdout s' = [] ∧ st_disk s' = ∅.
Proof.
  refine (compression_failure_reported msort zlib_compressBound stored_deflate
            (with_deflateInit2 sample (-2)) POSIX "framegen" "frames" "out.bin" ∅
            ["a.txt"; "b.txt"] [file_bytes "AA"; file_bytes "BB"] (-2) Z_STREAM_END
            sample_blob (λ _ _, eq_refl) _ _ _ _ _).
  - split; [|split; [done|]].
    + eexists. vm_compute. reflexivity.
    + repeat constructor.
  - vm_compute. reflexivity.
  - reflexivity.
  - vm_compute. reflexivity.
  - left. vm_compute. discriminate.
Defined.

Lemma output_not_created_witness :
  ∃ s',
    run msort zlib_compressBound stored_deflate
      (with_fopen_wb sample (λ _, inr "Permission denied"%string)) POSIX "framegen"
      ["frames"; "out.bin"] ∅ = (Exited 1, s') ∧
    st_stderr s'
      = ["Failed to create " +:+ "out.bin" +:+ ": " +:+ "Permission denied" +:+ nl] ∧
    st_stdout s' = [] ∧ st_disk s' = ∅.
Proof.
  refine (output_not_created msort zlib_compressBound stored_deflate
            (with_fopen_wb sample (λ _, inr "Permission denied"%string)) POSIX "framegen"
            "frames" "out.bin" ∅ sample_blob
            {| st_allocs := 6; st_stderr := []; st_stdout := []; st_disk := ∅ |}
            "Permission denied" _ _).
  - vm_compute. reflexivity.
  - reflexivity.
Defined.

Lemma frame_array_unchecked_witness :
  ∃ s',
    run msort zlib_compressBound stored_deflate (starved 0) POSIX "framegen"
      ["frames"; "out.bin"] ∅ = (Undefined, s') ∧
    st_stdout s' = [] ∧ st_disk s' = ∅.
Proof.
  refine (frame_array_unchecked msort zlib_compressBound stored_deflate (starved 0) POSIX
            "framegen" "frames" "out.bin" ∅ ["a.txt"; "b.txt"] (initial ∅) _ _ _).
  - vm_compute. reflexivity.
  - discriminate.
  - reflexivity.
Defined.

Lemma run_succeeds_witness :
  ∃ s',
    run msort zlib_compressBound stored_deflate sample POSIX "framegen"
      ["frames"; "out.bin"] {["old.bin" := [x00]]} = (Exited 0, s') ∧
    st_disk s' !! "out.bin" = Some sample_blob ∧
    (∀ path, path ≠ "out.bin" →
             st_disk s' !! path = ({["old.bin" := [x00]]} : gmap string (list byte)) !! path) ∧
    st_stderr s' = [] ∧ st_stdout s' = [].
Proof.
  refine (run_succeeds msort zlib_compressBound stored_deflate sample POSIX "framegen"
            "frames" "out.bin" {["old.bin" := [x00]]} ["a.txt"; "b.txt"]
            [file_bytes "AA"; file_bytes "BB"] sample_blob (λ _ _, eq_refl) _ _ _ _ _).
  - split; [|split; [done|]].
    + eexists. vm_compute. reflexivity.
    + repeat constructor.
  - split; [vm_compute; reflexivity|]. split; [reflexivity|]. vm_compute. reflexivity.
  - reflexivity.
  - vm_compute. lia.
  - vm_compute. lia.
Defined.

(** [fclose] flushes nothing: the run returns 0 and the file is empty. *)
Lemma exit_zero_output_witness :
  ∃ names frames blob,
    frame_set msort (with_fclose_flush sample (λ _, 0%nat)) POSIX "frames" ∅
      names frames ∧
    deflateInit2 (with_fclose_flush sample (λ _, 0%nat)) deflate_args = Z_OK ∧
    stored_deflate deflate_args Z_FINISH
      (take (Z.to_nat (to_uInt (joined_size frames))) (frames_joined frames))
      (to_uInt (to_uLong POSIX (zlib_compressBound (to_uLong POSIX (joined_size frames)))))
      = (Z_STREAM_END, blob) ∧
    (length blob ≤ fwrite_count (with_fclose_flush sample (λ _, 0%nat)) (length blob))%nat ∧
    st_disk unflushed_end
      = <["out.bin" := take (fclose_flush (with_fclose_flush sample (λ _, 0%nat))
                               (length blob)) blob]> ∅ ∧
    ((length blob ≤ fclose_flush (with_fclose_flush sample (λ _, 0%nat)) (length blob))%nat →
     st_disk unflushed_end = <["out.bin" := blob]> ∅) ∧
    st_stderr unflushed_end = [] ∧ st_stdout unflushed_end = [].
Proof.
  apply (exit_zero_output msort zlib_compressBound stored_deflate
           (with_fclose_flush sample (λ _, 0%nat)) POSIX "framegen" "frames" "out.bin" ∅).
  vm_compute. reflexivity.
Defined.

(** The same run: the output file holds the first 0 bytes. *)
Lemma output_is_prefix_witness :
  (∀ path, path ≠ "out.bin" → st_disk unflushed_end !! path = (∅ : gmap string (list byte)) !! path) ∧
  (0 = 1 ∧ st_disk unflushed_end = ∅ ∨
   ∃ names frames blob k,
     frame_set msort (with_fclose_flush sample (λ _, 0%nat)) POSIX "frames" ∅
       names frames ∧
     packed zlib_compressBound stored_deflate (with_fclose_flush sample (λ _, 0%nat))
       POSIX frames blob ∧
     (k ≤ length blob)%nat ∧
     st_disk unflushed_end = <["out.bin" := take k blob]> ∅ ∧
     (0 = 1 ∧ k = fwrite_count (with_fclose_flush sample (λ _, 0%nat)) (length blob)
      ∧ (k < length blob)%nat ∨
      0 = 0 ∧
      (length blob ≤ fwrite_count (with_fclose_flush sample (λ _, 0%nat)) (length blob))%nat ∧
      k = (fclose_flush (with_fclose_flush sample (λ _, 0%nat)) (length blob)
           `min` length blob)%nat)).
Proof.
  apply (output_is_prefix msort zlib_compressBound stored_deflate
           (with_fclose_flush sample (λ _, 0%nat)) POSIX "framegen" "frames" "out.bin" ∅
           0 unflushed_end).
  vm_compute. reflexivity.
Defined.

(** The frames [AA] and [BB], and the one frame [AA 0x01 BB]. *)
Lemma separator_not_escaped_witness :
  concatenate sample 1 (Some [Some (file_bytes "AA" ++ SEPARATOR :: file_bytes "BB")])
    (Some [5]) 5 (initial ∅)
  = (Ret (file_bytes "AA" ++ x01 :: file_bytes "BB"), bump (initial ∅)).
Proof.
  apply (separator_not_escaped sample (file_bytes "AA") (file_bytes "BB") [] (initial ∅)).
  vm_compute. reflexivity.
Defined.

Lemma frames_recoverable_witness :
  [file_bytes "AA"; file_bytes "BB"] = [file_bytes "AA"; file_bytes "BB"].
Proof.
  refine (frames_recoverable sample sample_reversed
            [file_bytes "AA"; file_bytes "BB"] [file_bytes "AA"; file_bytes "BB"]
            (initial ∅) (bump (initial ∅))
            (file_bytes "AA" ++ x01 :: file_bytes "BB") _ _ _ _ _ _ _ _).
  - discriminate.
  - discriminate.
  - repeat constructor; intros Hin; vm_compute in Hin;
      repeat (apply elem_of_cons in Hin as [Hin|Hin]; [discriminate|]);
      by apply elem_of_nil in Hin.
  - repeat constructor; intros Hin; vm_compute in Hin;
      repeat (apply elem_of_cons in Hin as [Hin|Hin]; [discriminate|]);
      by apply elem_of_nil in Hin.
  - vm_compute. reflexivity.
  - vm_compute. reflexivity.
Defined.

Lemma small_output_inflates_witness :
  ∃ names frames blob,
    frame_set msort sample POSIX "frames" ∅ names frames ∧
    st_disk sample_end !! "out.bin" = Some blob ∧
    (joined_size frames < 2 ^ uInt_bits →
     stored_inflate (- MAX_WBITS) blob = Some (frames_joined frames)).
Proof.
  apply (small_output_inflates msort zlib_compressBound stored_deflate stored_inflate
           sample POSIX "framegen" "frames" "out.bin" ∅ _ stored_codec_sound
           (λ n, le_n n)).
  vm_compute. reflexivity.
Defined.


Lemma starved_granted (failing : nat) : granted (starved failing) 0 failing.
Proof.
  intros k size Hk. unfold starved, sample_env, all_but. simpl.
  apply negb_true_iff, Nat.eqb_neq. lia.
Defined.

Lemma starved_refused (failing : nat) : refused (starved failing) failing.
Proof.
  intros size. unfold starved, sample_env, all_but. simpl.
  apply negb_false_iff, Nat.eqb_refl.
Defined.

(** The buffer for [b.txt], the second frame, is the request number 3. *)
Lemma read_buffer_failure_silent_witness :
  ∃ s',
    run msort zlib_compressBound stored_deflate (starved 3) POSIX "framegen"
      ["frames"; "out.bin"] ∅ = (Exited 1, s') ∧
    st_stderr s' = [] ∧ st_stdout s' = [] ∧ st_disk s' = ∅.
Proof.
  refine (read_buffer_failure_silent msort zlib_compressBound stored_deflate (starved 3)
            POSIX "framegen" "frames" "out.bin" ∅ ["a.txt"] "b.txt" []
            [file_bytes "AA"] {| s_tell := 2; s_data := file_bytes "BB" |} (initial ∅)
            _ _ _ (starved_granted 3) (starved_refused 3)).
  - vm_compute. reflexivity.
  - repeat constructor.
  - vm_compute. reflexivity.
Defined.

Lemma joined_buffer_failure_reported_witness :
  ∃ s',
    run msort zlib_compressBound stored_deflate (starved 4) POSIX "framegen"
      ["frames"; "out.bin"] ∅ = (Exited 1, s') ∧
    st_stderr s' = ["Failed to allocate joined buffer" +:+ nl] ∧
    st_stdout s' = [] ∧ st_disk s' = ∅.
Proof.
  refine (joined_buffer_failure_reported msort zlib_compressBound stored_deflate
            (starved 4) POSIX "framegen" "frames" "out.bin" ∅ ["a.txt"; "b.txt"]
            [file_bytes "AA"; file_bytes "BB"] (initial ∅)
            _ _ _ (starved_granted 4) (starved_refused 4)).
  - vm_compute. reflexivity.
  - discriminate.
  - repeat constructor.
Defined.

Lemma compression_buffer_failure_reported_witness :
  ∃ s',
    run msort zlib_compressBound stored_deflate (starved 5) POSIX "framegen"
      ["frames"; "out.bin"] ∅ = (Exited 1, s') ∧
    st_stderr s' = ["Failed to allocate compression buffer" +:+ nl] ∧
    st_stdout s' = [] ∧ st_disk s' = ∅.
Proof.
  refine (compression_buffer_failure_reported msort zlib_compressBound stored_deflate
            (starved 5) POSIX "framegen" "frames" "out.bin" ∅ ["a.txt"; "b.txt"]
            [file_bytes "AA"; file_bytes "BB"] (initial ∅)
            _ _ _ _ (starved_granted 5) (starved_refused 5)).
  - vm_compute. reflexivity.
  - discriminate.
  - repeat constructor.
  - vm_compute. reflexivity.
Defined.
